(** * github-analyzer: the repository analyzer of [src/github-analyzer.ts]

    A shallow embedding of the command-line tool and of the class
    [GitHubRepoAnalyzer]: argument parsing ([main]), the tree walker
    ([getAllFiles]), the pattern matcher ([findMatchingFiles]), the prober
    ([analyzeRepository]), the orchestrator ([analyzeRepositories]) and the
    reporter ([generateReport]).

    Conventions.
    - A JavaScript string is a sequence of UTF-16 code units; the model keeps
      the code units below 256 (type [ascii]), on which case mapping is the
      Latin-1 one.
    - A JavaScript exception is a value of type [error]; a call that may throw
      returns [error + A].
    - The file system is a finite tree of directory entries ([node]); paths are
      built by the code's own [path.join].
    - POSIX paths: [path.sep] is the slash. *)

From Stdlib Require Import String Ascii List ZArith Lia Bool Arith PeanoNat.
From Stdlib Require Import DecimalString.
From Stdlib Require DecimalNat DecimalFacts.
From Stdlib Require Import Permutation Sorted.
Import ListNotations.
Local Open Scope list_scope.
Local Open Scope string_scope.

Set Implicit Arguments.

(* ================================================================== *)
(** * Part I. Definitions *)
(* ================================================================== *)

(** ** JavaScript strings *)

Module JsString.

Definition slash : ascii := "/"%char.
Definition dot : ascii := "."%char.

(** [String.prototype.toLowerCase], one code unit: A-Z and the Latin-1
    capitals U+00C0..U+00DE (the multiplication sign U+00D7 apart). *)
Definition toLowerChar (c : ascii) : ascii :=
  let n := nat_of_ascii c in
  if ((65 <=? n)%nat && (n <=? 90)%nat)
     || ((192 <=? n)%nat && (n <=? 222)%nat && negb (n =? 215)%nat)
  then ascii_of_nat (n + 32) else c.

Fixpoint toLowerCase (s : string) : string :=
  match s with
  | EmptyString => EmptyString
  | String c s' => String (toLowerChar c) (toLowerCase s')
  end.

(** [s.startsWith(p)] *)
Fixpoint startsWith (s p : string) {struct p} : bool :=
  match p with
  | EmptyString => true
  | String a p' =>
      match s with
      | EmptyString => false
      | String b s' => Ascii.eqb a b && startsWith s' p'
      end
  end.

(** [s.includes(p)] *)
Fixpoint includes (s p : string) {struct s} : bool :=
  startsWith s p
  || match s with
     | EmptyString => false
     | String _ s' => includes s' p
     end.

(** [s.slice(n)] for [0 <= n] *)
Fixpoint drop (n : nat) (s : string) : string :=
  match n, s with
  | O, _ => s
  | S _, EmptyString => EmptyString
  | S n', String _ s' => drop n' s'
  end.

(** [s.replace(p, '')] with a string pattern: the first occurrence of [p]
    is removed, the rest of [s] is kept. *)
Fixpoint replace_first (s p : string) {struct s} : string :=
  if startsWith s p then drop (String.length p) s
  else match s with
       | EmptyString => EmptyString
       | String c s' => String c (replace_first s' p)
       end.

(** [s.replace(/^\//, '')] *)
Definition strip_leading_slash (s : string) : string :=
  match s with
  | String c s' => if Ascii.eqb c slash then s' else s
  | EmptyString => EmptyString
  end.

(** [s.replace(/\*/g, '.*')] *)
Fixpoint replace_stars (s : string) : string :=
  match s with
  | EmptyString => EmptyString
  | String c s' =>
      if Ascii.eqb c "*"%char then String dot (String "*"%char (replace_stars s'))
      else String c (replace_stars s')
  end.

(** [s.split(sep)] for a one-character separator: never the empty list. *)
Fixpoint split (sep : ascii) (s : string) : list string :=
  match s with
  | EmptyString => [EmptyString]
  | String c s' =>
      if Ascii.eqb c sep then EmptyString :: split sep s'
      else match split sep s' with
           | seg :: rest => String c seg :: rest
           | [] => [String c EmptyString]
           end
  end.

(** [l.join(sep)] *)
Fixpoint join (sep : string) (l : list string) : string :=
  match l with
  | [] => EmptyString
  | x :: rest =>
      match rest with
      | [] => x
      | _ :: _ => x ++ sep ++ join sep rest
      end
  end.

(** [l.slice(-n)] *)
Definition slice_last {A : Type} (n : nat) (l : list A) : list A :=
  skipn (List.length l - n) l.

Definition is_digit (c : ascii) : bool :=
  let n := nat_of_ascii c in (48 <=? n)%nat && (n <=? 57)%nat.

Fixpoint all_digits (s : string) : bool :=
  match s with
  | EmptyString => true
  | String c s' => is_digit c && all_digits s'
  end.

(** [s.match(/^\d+$/)] is not null *)
Definition matches_digits (s : string) : bool :=
  match s with
  | EmptyString => false
  | String _ _ => all_digits s
  end.

(** A truthy string is a non-empty one. *)
Definition truthy (s : string) : bool :=
  match s with
  | EmptyString => false
  | String _ _ => true
  end.

(** [String(n)] for a natural number *)
Definition of_nat (n : nat) : string :=
  NilZero.string_of_uint (Nat.to_uint n).

End JsString.

(** ** JavaScript numbers, as far as [parseInt] produces them *)

(** [Num z] stands for the number of mathematical value [z], an integer
    that is a double; the model does not tell -0 from 0. *)
Inductive jsnum : Type :=
| NaN
| Num (z : Z)
| Infinity (negative : bool).

Module ParseInt.

(** [StrWhiteSpaceChar] among the code units below 256. *)
Definition is_space (c : ascii) : bool :=
  let n := nat_of_ascii c in
  ((9 <=? n)%nat && (n <=? 13)%nat) || (n =? 32)%nat || (n =? 160)%nat.

Fixpoint trim_start (s : string) : string :=
  match s with
  | String c s' => if is_space c then trim_start s' else s
  | EmptyString => EmptyString
  end.

(** The value of a digit in radix [r], when it is one. *)
Definition digit_value (r : nat) (c : ascii) : option nat :=
  let n := nat_of_ascii c in
  let v :=
    if (48 <=? n)%nat && (n <=? 57)%nat then Some (n - 48)
    else if (97 <=? n)%nat && (n <=? 122)%nat then Some (n - 87)
    else if (65 <=? n)%nat && (n <=? 90)%nat then Some (n - 55)
    else None in
  match v with
  | Some d => if (d <? r)%nat then Some d else None
  | None => None
  end.

(** The longest prefix of radix-[r] digits, read left to right; [None] when
    the prefix is empty. *)
Fixpoint digits (r : nat) (acc : option Z) (s : string) : option Z :=
  match s with
  | EmptyString => acc
  | String c s' =>
      match digit_value r c with
      | None => acc
      | Some d =>
          let a := match acc with Some a => a | None => 0%Z end in
          digits r (Some (a * Z.of_nat r + Z.of_nat d)%Z) s'
      end
  end.

(** The double nearest to the integer [z >= 0], ties to the even
    significand; [None] past the largest double.  Every integer up to 2^53
    is a double; a larger one keeps the 53 leading bits of its binary
    writing, rounded on the bits that are dropped. *)
Definition nearest_double (z : Z) : option Z :=
  if (z <=? 9007199254740992)%Z then Some z
  else
    let e := (Z.log2 z - 52)%Z in
    let q := Z.shiftr z e in
    let r := (z - Z.shiftl q e)%Z in
    let half := Z.shiftl 1 (e - 1) in
    let q' := if (half <? r)%Z || ((r =? half)%Z && Z.odd q)
              then (q + 1)%Z else q in
    let v := Z.shiftl q' e in
    if (Z.shiftl 1 1024 <=? v)%Z then None else Some v.

(** The Number value of [sign * z], for [z >= 0]. *)
Definition number (sign z : Z) : jsnum :=
  match nearest_double z with
  | Some m => Num (sign * m)
  | None => Infinity (sign <? 0)%Z
  end.

(** [parseInt(s)], no radix given. *)
Definition parseInt (s : string) : jsnum :=
  let s1 := trim_start s in
  let '(sign, s2) :=
    match s1 with
    | String c s' =>
        if Ascii.eqb c "-"%char then ((-1)%Z, s')
        else if Ascii.eqb c "+"%char then (1%Z, s')
        else (1%Z, s1)
    | EmptyString => (1%Z, s1)
    end in
  let '(radix, s3) :=
    match s2 with
    | String a (String b s') =>
        if Ascii.eqb a "0"%char && (Ascii.eqb b "x"%char || Ascii.eqb b "X"%char)
        then (16, s') else (10, s2)
    | _ => (10, s2)
    end in
  match digits radix None s3 with
  | None => NaN
  | Some z => number sign z
  end.

End ParseInt.

(** ** The command line ([main]) *)

Module Cli.
Import JsString.

(** [args.includes(x)] *)
Definition includes_arg (args : list string) (x : string) : bool :=
  existsb (String.eqb x) args.

(** [args[args.findIndex(arg => arg === '--limit') + 1]]: the argument
    after the first [--limit], [None] when there is no [--limit]
    ([limitIndex === -1]) or nothing after it ([undefined]). *)
Fixpoint after_limit (args : list string) : option string :=
  match args with
  | [] => None
  | a :: rest =>
      if String.eqb a "--limit" then
        match rest with
        | [] => None
        | v :: _ => Some v
        end
      else after_limit rest
  end.

(** [limitIndex !== -1 && args[limitIndex + 1] ? parseInt(...) : 10] *)
Definition limit_of (args : list string) : jsnum :=
  match after_limit args with
  | Some v => if truthy v then ParseInt.parseInt v else Num 10
  | None => Num 10
  end.

(** [args.slice(1).filter(arg => arg !== '--limit' && !arg.match(/^\d+$/))] *)
Definition filePatterns_of (args : list string) : list string :=
  filter (fun arg => negb (String.eqb arg "--limit") && negb (matches_digits arg))
         (tl args).

Inductive invocation : Type :=
| Usage
| Run (query : string) (filePatterns : list string) (limit : jsnum).

(** What [main] does with [process.argv.slice(2)]: print the usage text, or
    call [analyzeRepositories(query, filePatterns, limit)]. *)
Definition main_args (args : list string) : invocation :=
  match args with
  | [] => Usage
  | query :: _ =>
      if includes_arg args "--help" then Usage
      else Run query (filePatterns_of args) (limit_of args)
  end.

(** The file patterns as the specification words them: the arguments after
    the first, without [--limit] and without the numeric argument that
    follows it. *)
Fixpoint drop_limit_flag (args : list string) : list string :=
  match args with
  | [] => []
  | a :: rest =>
      if String.eqb a "--limit" then
        match rest with
        | v :: rest' =>
            if matches_digits v then drop_limit_flag rest'
            else drop_limit_flag rest
        | [] => []
        end
      else a :: drop_limit_flag rest
  end.

Definition filePatterns_spec (args : list string) : list string :=
  drop_limit_flag (tl args).

(** An argument made of decimal digits only, and at least one. *)
Definition digits_only (a : string) : Prop :=
  a <> "" /\
  forall c, In c (list_ascii_of_string a) ->
            (48 <= nat_of_ascii c <= 57)%nat.

(** The arguments that never become file patterns. *)
Definition excluded (a : string) : Prop :=
  a = "--limit" \/ digits_only a.

End Cli.

(** ** Node's [path] module (POSIX) *)

Module Path.
Import JsString.

(** [normalizeString]: one step per segment between slashes; [res] is the
    stack of kept segments, last one first.  An empty segment and [.] are
    dropped, [..] removes the last kept segment when there is one that is
    not itself [..], and is kept only above the root of a relative path. *)
Definition normalize_step (allowAboveRoot : bool) (res : list string)
    (seg : string) : list string :=
  if String.eqb seg "" || String.eqb seg "." then res
  else if String.eqb seg ".." then
    match res with
    | last :: rest =>
        if String.eqb last ".." then
          if allowAboveRoot then seg :: res else res
        else rest
    | [] => if allowAboveRoot then [seg] else []
    end
  else seg :: res.

Definition normalizeString (path : string) (allowAboveRoot : bool) : string :=
  join "/" (rev (fold_left (normalize_step allowAboveRoot) (split slash path) [])).

Definition endsWith_slash (s : string) : bool :=
  match rev (split slash s) with
  | last :: _ :: _ => String.eqb last ""
  | _ => false
  end.

(** [path.normalize] *)
Definition normalize (path : string) : string :=
  if String.eqb path "" then "."
  else
    let isAbsolute := startsWith path "/" in
    let trailingSeparator := endsWith_slash path in
    let p := normalizeString path (negb isAbsolute) in
    if String.eqb p "" then
      if isAbsolute then "/" else if trailingSeparator then "./" else "."
    else
      let p := if trailingSeparator then p ++ "/" else p in
      if isAbsolute then "/" ++ p else p.

(** [path.join(...args)]: the non-empty arguments joined by slashes, then
    normalized. *)
Definition join (args : list string) : string :=
  match filter truthy args with
  | [] => "."
  | joined => normalize (JsString.join "/" joined)
  end.

(** The segments of a path without the empty ones that trailing slashes
    leave at the end. *)
Fixpoint drop_trailing_empty (segs : list string) : list string :=
  match segs with
  | [] => []
  | s :: rest =>
      match drop_trailing_empty rest with
      | [] => if String.eqb s "" then [] else [s]
      | r => s :: r
      end
  end.

(** [path.basename(p)]: the last segment, trailing slashes ignored. *)
Definition basename (p : string) : string :=
  last (drop_trailing_empty (split slash p)) "".

(** The part of [s] from its last dot on, with the number of characters
    before that dot; [None] when [s] has no dot. *)
Fixpoint from_last_dot (s : string) : option (nat * string) :=
  match s with
  | EmptyString => None
  | String c s' =>
      match from_last_dot s' with
      | Some (n, e) => Some (S n, e)
      | None => if Ascii.eqb c dot then Some (0, s) else None
      end
  end.

(** [path.extname(p)]: from the last dot of the base name on; empty when
    there is no dot, when the dot is the first character of the base name,
    and for the base name [..]. *)
Definition extname (p : string) : string :=
  let base := basename p in
  match from_last_dot base with
  | None => ""
  | Some (O, _) => ""
  | Some (S _, e) => if String.eqb base ".." then "" else e
  end.

(** A name that a directory lists: not empty, not [.] or [..], and
    without a slash. *)
Definition plain (n : string) : bool :=
  negb (String.eqb n "") && negb (String.eqb n ".")
  && negb (String.eqb n "..") && negb (includes n "/").

(** The absolute path whose segments are [segs]. *)
Definition rooted (segs : list string) : string :=
  "/" ++ JsString.join "/" segs.

(** A normalized absolute path below the root directory. *)
Definition clean (d : string) : Prop :=
  exists segs, segs <> [] /\ Forall (fun n => plain n = true) segs
               /\ d = rooted segs.

End Path.

(** ** Regular expressions: [new RegExp(source, 'i')] and [test]

    The sources made only of ordinary characters, the dot and the quantifiers
    [*], [+] and [?] are compiled and run here.  A source with any other
    syntax character (anchors, escapes, groups, classes, braces, alternation)
    is handed to the host's engine, a parameter of the model. *)

Module RegExp.

Inductive atom : Type :=
| AnyChar
| Lit (c : ascii).

Inductive quantifier : Type :=
| One
| ZeroOrMore
| OneOrMore
| ZeroOrOne.

Definition term : Type := (atom * quantifier)%type.

(** A compiled regular expression. *)
Inductive regex : Type :=
| Terms (ts : list term)
| HostRegex (test : string -> bool).

(** The host's constructor: a [SyntaxError] detail, or the [test] function
    of the regular expression. *)
Definition engine : Type := string -> string + (string -> bool).

(** [Canonicalize] under the flag [i] without [u]: the upper-case mapping,
    where it is one code unit ([a-z], and the Latin-1 small letters
    U+00E0..U+00FE, the division sign U+00F7 apart; the micro sign and
    U+00FF map outside the code units kept here, to letters that nothing
    else maps to, and stay themselves). *)
Definition canonicalize (c : ascii) : ascii :=
  let n := nat_of_ascii c in
  if ((97 <=? n)%nat && (n <=? 122)%nat)
     || ((224 <=? n)%nat && (n <=? 254)%nat && negb (n =? 247)%nat)
  then ascii_of_nat (n - 32) else c.

(** The dot matches every code unit but the line terminators. *)
Definition is_line_terminator (c : ascii) : bool :=
  let n := nat_of_ascii c in (n =? 10)%nat || (n =? 13)%nat.

Definition atom_matches (a : atom) (c : ascii) : bool :=
  match a with
  | AnyChar => negb (is_line_terminator c)
  | Lit l => Ascii.eqb (canonicalize l) (canonicalize c)
  end.

(** The syntax characters that this model leaves to the host. *)
Definition host_syntax (c : ascii) : bool :=
  existsb (Ascii.eqb c)
    ["^"; "$"; "\"; "("; ")"; "["; "]"; "{"; "}"; "|"]%char.

Fixpoint has_host_syntax (s : string) : bool :=
  match s with
  | EmptyString => false
  | String c s' => host_syntax c || has_host_syntax s'
  end.

Definition quantifier_of (c : ascii) : option quantifier :=
  if Ascii.eqb c "*"%char then Some ZeroOrMore
  else if Ascii.eqb c "+"%char then Some OneOrMore
  else if Ascii.eqb c "?"%char then Some ZeroOrOne
  else None.

(** What the parser holds while it reads: nothing, an atom that may still
    take a quantifier, a quantified atom that may still take the lazy
    mark [?], or a finished term. *)
Inductive pending : Type :=
| NoAtom
| Bare (a : atom)
| Quantified (a : atom) (q : quantifier)
| Lazy (a : atom) (q : quantifier).

Definition flush (p : pending) (acc : list term) : list term :=
  match p with
  | NoAtom => acc
  | Bare a => (a, One) :: acc
  | Quantified a q | Lazy a q => (a, q) :: acc
  end.

(** The terms of [s], last one first; [None] is the [SyntaxError]
    "Nothing to repeat". *)
Fixpoint parse_from (p : pending) (acc : list term) (s : string)
  : option (list term) :=
  match s with
  | EmptyString => Some (flush p acc)
  | String c s' =>
      match quantifier_of c with
      | Some q =>
          match p with
          | NoAtom => None
          | Bare a => parse_from (Quantified a q) acc s'
          | Quantified a q0 =>
              if Ascii.eqb c "?"%char then parse_from (Lazy a q0) acc s'
              else None
          | Lazy _ _ => None
          end
      | None =>
          let a := if Ascii.eqb c "."%char then AnyChar else Lit c in
          parse_from (Bare a) (flush p acc) s'
      end
  end.

Definition parse (s : string) : option (list term) :=
  option_map (@rev term) (parse_from NoAtom [] s).

(** [new RegExp(source, 'i')] *)
Definition compile (host : engine) (source : string) : string + regex :=
  if has_host_syntax source then
    match host source with
    | inl detail => inl detail
    | inr t => inr (HostRegex t)
    end
  else
    match parse source with
    | Some ts => inr (Terms ts)
    | None => inl "Nothing to repeat"
    end.

(** A starred atom followed by the rest of the expression [k]: the rest
    here, or after one more character that the atom matches. *)
Fixpoint repeat (a : atom) (k : string -> bool) (s : string) : bool :=
  k s
  || match s with
     | EmptyString => false
     | String c s' => atom_matches a c && repeat a k s'
     end.

(** Whether the terms match a prefix of [s].  A lazy quantifier changes
    which match is found first, not whether there is one. *)
Fixpoint match_here (ts : list term) (s : string) {struct ts} : bool :=
  match ts with
  | [] => true
  | (a, q) :: rest =>
      match q with
      | One =>
          match s with
          | EmptyString => false
          | String c s' => atom_matches a c && match_here rest s'
          end
      | ZeroOrOne =>
          match_here rest s
          || match s with
             | EmptyString => false
             | String c s' => atom_matches a c && match_here rest s'
             end
      | ZeroOrMore => repeat a (match_here rest) s
      | OneOrMore =>
          match s with
          | EmptyString => false
          | String c s' => atom_matches a c && repeat a (match_here rest) s'
          end
      end
  end.

(** A match may start at any index of [s]. *)
Fixpoint search (ts : list term) (s : string) : bool :=
  match_here ts s
  || match s with
     | EmptyString => false
     | String _ s' => search ts s'
     end.

(** [regex.test(s)] *)
Definition test (r : regex) (s : string) : bool :=
  match r with
  | Terms ts => search ts s
  | HostRegex t => t s
  end.

(** The strings of a term, and of a sequence of terms: the language that
    the expression denotes. *)
Inductive term_matches : term -> string -> Prop :=
| tm_one (a : atom) (c : ascii) :
    atom_matches a c = true -> term_matches (a, One) (String c "")
| tm_none (a : atom) :
    term_matches (a, ZeroOrOne) ""
| tm_some (a : atom) (c : ascii) :
    atom_matches a c = true -> term_matches (a, ZeroOrOne) (String c "")
| tm_star_stop (a : atom) :
    term_matches (a, ZeroOrMore) ""
| tm_star_more (a : atom) (c : ascii) (s : string) :
    atom_matches a c = true -> term_matches (a, ZeroOrMore) s ->
    term_matches (a, ZeroOrMore) (String c s)
| tm_plus (a : atom) (c : ascii) (s : string) :
    atom_matches a c = true -> term_matches (a, ZeroOrMore) s ->
    term_matches (a, OneOrMore) (String c s).

Inductive terms_match : list term -> string -> Prop :=
| tsm_nil : terms_match [] ""
| tsm_cons (t : term) (ts : list term) (s1 s2 : string) :
    term_matches t s1 -> terms_match ts s2 -> terms_match (t :: ts) (s1 ++ s2).

End RegExp.

(** ** Exceptions *)

Inductive errno : Type :=
| ENOENT
| EACCES
| ENOTDIR
| EISDIR
| ELOOP.

Inductive error : Type :=
| SystemError (code : errno) (syscall path : string)
| SyntaxError (source detail : string)
| ExecError (command detail : string).

Definition errno_text (c : errno) : string :=
  match c with
  | ENOENT => "ENOENT: no such file or directory"
  | EACCES => "EACCES: permission denied"
  | ENOTDIR => "ENOTDIR: not a directory"
  | EISDIR => "EISDIR: illegal operation on a directory"
  | ELOOP => "ELOOP: too many symbolic links encountered"
  end.

Definition nl : string := String (ascii_of_nat 10) EmptyString.

(** [error.message], in the wording of Node's file-system errors, of V8's
    [SyntaxError] for a regular expression and of [execSync]. *)
Definition message (e : error) : string :=
  match e with
  | SystemError c syscall path =>
      errno_text c ++ ", " ++ syscall ++ " '" ++ path ++ "'"
  | SyntaxError source detail =>
      "Invalid regular expression: /" ++ source ++ "/: " ++ detail
  | ExecError command detail =>
      "Command failed: " ++ command ++ nl ++ detail
  end.

(** ** The file system under a clone *)

(** What [fs.statSync] and [fs.readdirSync] find at a path: a regular file, a
    directory with the outcome of listing it (the entries in the order the
    platform lists them, or the error of [readdirSync]), or an entry that
    [statSync] fails on (a dangling link, a forbidden parent). *)
#[warnings="-register-all"]
Inductive node : Type :=
| File (size : nat) (content : option string)
| Dir (listing : errno + list (string * node))
| NoStat (code : errno).

Definition entries : Type := list (string * node).

(** [fs.readdirSync(dir)] on the node at [dir] *)
Definition readdirSync (dir : string) (n : node) : error + entries :=
  match n with
  | Dir (inr es) => inr es
  | Dir (inl c) => inl (SystemError c "scandir" dir)
  | File _ _ => inl (SystemError ENOTDIR "scandir" dir)
  | NoStat c => inl (SystemError c "scandir" dir)
  end.

(** The entry called [name] of a listing. *)
Fixpoint entry (name : string) (es : entries) : option node :=
  match es with
  | [] => None
  | (n, child) :: rest => if String.eqb n name then Some child else entry name rest
  end.

(** The node reached from [n] along the names [segs]. *)
Fixpoint resolve (n : node) (segs : list string) : errno + node :=
  match segs with
  | [] => inr n
  | s :: rest =>
      match n with
      | Dir (inr es) =>
          match entry s es with
          | Some child => resolve child rest
          | None => inl ENOENT
          end
      | Dir (inl c) => inl c
      | File _ _ => inl ENOTDIR
      | NoStat c => inl c
      end
  end.

(** The node at the absolute path [p], when [root] is the node at [mount]. *)
Definition lookup (mount : string) (root : node) (p : string) : errno + node :=
  if String.eqb p mount then inr root
  else if JsString.startsWith p (mount ++ "/") then
    resolve root (JsString.split JsString.slash
                    (JsString.drop (String.length mount + 1) p))
  else inl ENOENT.

(** [fs.statSync(p)] *)
Definition statSync (mount : string) (root : node) (p : string) : error + node :=
  match lookup mount root p with
  | inr (NoStat c) | inl c => inl (SystemError c "stat" p)
  | inr n => inr n
  end.

(** [fs.statSync(p).size]; the size of a directory is not modelled. *)
Definition size_of (n : node) : nat :=
  match n with
  | File size _ => size
  | _ => 0
  end.

(** [fs.readFileSync(p, 'utf8')] *)
Definition readFileSync (mount : string) (root : node) (p : string)
  : error + string :=
  match lookup mount root p with
  | inr (File _ (Some text)) => inr text
  | inr (File _ None) => inl (SystemError EACCES "open" p)
  | inr (Dir _) => inl (SystemError EISDIR "read" p)
  | inr (NoStat c) | inl c => inl (SystemError c "open" p)
  end.

(** ** The data model *)

Record RepoInfo : Type := {
  name : string;
  owner : string;
  url : string;
  description : string;
  stars : nat;
  language : string
}.

Record SpecialFile : Type := {
  sf_path : string;
  sf_size : nat
}.

Inductive entry_kind : Type :=
| KDirectory
| KFile.

(** What the console receives, one constructor per call of [console.log]
    and [console.error] in the class. *)
Inductive event : Type :=
| LogSearching (query : string)
| ErrSearching (e : error)
| LogCloning (repo : RepoInfo)
| ErrFailedToClone (repo : RepoInfo) (e : error)
| ErrAnalyzing (repo : RepoInfo) (e : error)
| LogFound (n : nat)
| LogAnalyzed (repo : RepoInfo) (matching : nat)
| ErrFailedToAnalyze (repo : RepoInfo) (e : error)
| ErrAnalysisProcess (e : error).

(** ** The tree walker *)

(** Directories that the walker does not enter:
    [file.startsWith('.git') || file === 'node_modules'] *)
Definition skipped (file : string) : bool :=
  JsString.startsWith file ".git" || String.eqb file "node_modules".

(** [getAllFiles(dir, fileList)], [n] being the node at [dir].  The files
    are pushed on [fileList] in the order they are met; an exception of
    [readdirSync] or [statSync] leaves the walk at once. *)
Fixpoint getAllFiles (dir : string) (n : node) (fileList : list string)
  {struct n} : error + list string :=
  match n with
  | Dir (inr files) =>
      (fix forEach (files : entries) (fileList : list string)
         : error + list string :=
         match files with
         | [] => inr fileList
         | (file, child) :: rest =>
             let filePath := Path.join [dir; file] in
             match child with
             | NoStat c => inl (SystemError c "stat" filePath)
             | Dir _ =>
                 if negb (skipped file) then
                   match getAllFiles filePath child fileList with
                   | inl e => inl e
                   | inr fileList' => forEach rest fileList'
                   end
                 else forEach rest fileList
             | File _ _ => forEach rest (fileList ++ [filePath])%list
             end
         end) files fileList
  | Dir (inl c) => inl (SystemError c "scandir" dir)
  | File _ _ => inl (SystemError ENOTDIR "scandir" dir)
  | NoStat c => inl (SystemError c "scandir" dir)
  end.

(** The loop of [getAllFiles] over the entries of [dir], as a function of
    its own. *)
Fixpoint walk_entries (dir : string) (files : entries) (fileList : list string)
  : error + list string :=
  match files with
  | [] => inr fileList
  | (file, child) :: rest =>
      let filePath := Path.join [dir; file] in
      match child with
      | NoStat c => inl (SystemError c "stat" filePath)
      | Dir _ =>
          if negb (skipped file) then
            match getAllFiles filePath child fileList with
            | inl e => inl e
            | inr fileList' => walk_entries dir rest fileList'
            end
          else walk_entries dir rest fileList
      | File _ _ => walk_entries dir rest (fileList ++ [filePath])%list
      end
  end.


(** *** Vocabulary for the properties of the walker *)

(** [file_at n segs]: going down from the directory [n] through the
    directories [segs] names, one entry at a time, ends on a regular file. *)
Inductive file_at : node -> list string -> Prop :=
| file_here (es : entries) (name : string) (size : nat) (content : option string) :
    In (name, File size content) es ->
    file_at (Dir (inr es)) [name]
| file_below (es : entries) (name : string) (listing : errno + entries)
    (segs : list string) :
    In (name, Dir listing) es ->
    file_at (Dir listing) segs ->
    file_at (Dir (inr es)) (name :: segs).

(** The path that [path.join] builds from [dir] down the names [segs]. *)
Fixpoint join_all (dir : string) (segs : list string) : string :=
  match segs with
  | [] => dir
  | s :: rest => join_all (Path.join [dir; s]) rest
  end.

(** The tree with every skipped directory emptied. *)
Fixpoint prune (n : node) : node :=
  match n with
  | Dir (inr es) =>
      Dir (inr (map (fun e : string * node =>
                       let (file, child) := e in
                       (file,
                        match child with
                        | Dir _ => if skipped file then Dir (inr []) else prune child
                        | _ => child
                        end)) es))
  | _ => n
  end.

(** Every name listed anywhere in the tree is a plain one. *)
Fixpoint wf_node (n : node) : bool :=
  match n with
  | Dir (inr es) =>
      forallb (fun e : string * node =>
                 let (file, child) := e in Path.plain file && wf_node child) es
  | _ => true
  end.

(** What the walk adds to its list: paths of files of the tree, reached
    through directories that are not skipped. *)
Definition walked (dir : string) (n : node) (p : string) : Prop :=
  exists segs,
    file_at n segs /\ p = join_all dir segs
    /\ Forall (fun d => d <> "node_modules" /\ JsString.startsWith d ".git" = false)
              (removelast segs).

(** A reported path [p] is relative to the clone at [localPath] whose tree
    is [root]: it does not start at the root of the file system nor with the
    clone's own path, and followed from the clone's directory, segment by
    segment, it ends on a file of the clone. *)
Definition relative_to (root : node) (localPath p : string) : Prop :=
  JsString.startsWith p "/" = false
  /\ JsString.startsWith p localPath = false
  /\ exists segs, file_at root segs /\ p = JsString.join "/" segs.

(** *** Vocabulary for further properties of the walker *)

(** A tree that the walk gets through: every directory it enters can be
    listed and every entry it meets can be inspected; what lies in a skipped
    directory does not count. *)
Fixpoint walkable (n : node) : bool :=
  match n with
  | Dir (inr es) =>
      forallb (fun e : string * node =>
                 let (file, child) := e in
                 match child with
                 | NoStat _ => false
                 | Dir _ => skipped file || walkable child
                 | File _ _ => true
                 end) es
  | _ => false
  end.

(** The result of a walk behind the files that the caller already holds. *)
Definition prepend (fileList : list string) (r : error + list string)
  : error + list string :=
  match r with
  | inl e => inl e
  | inr l => inr (fileList ++ l)%list
  end.

(** No name twice in a list. *)
Fixpoint distinct (l : list string) : bool :=
  match l with
  | [] => true
  | x :: rest => negb (existsb (String.eqb x) rest) && distinct rest
  end.

(** No directory of the tree lists a name twice. *)
Fixpoint unique_names (n : node) : bool :=
  match n with
  | Dir (inr es) =>
      distinct (map fst es)
      && forallb (fun e : string * node =>
                    let (_, child) := e in unique_names child) es
  | _ => true
  end.

(** *** Vocabulary for further properties of the matcher *)

(** The characters that mean something to [RegExp], the dot and the star
    apart. *)
Definition regex_special (c : ascii) : bool :=
  RegExp.host_syntax c || Ascii.eqb c "+"%char || Ascii.eqb c "?"%char.

Fixpoint has_regex_special (s : string) : bool :=
  match s with
  | EmptyString => false
  | String c s' => regex_special c || has_regex_special s'
  end.

(** [s] holds the letters [mdc], of either case, right after a character
    that is not a line terminator: what the expression [.*.mdc] looks for
    under the flag [i]. *)
Definition holds_mdc (s : string) : Prop :=
  exists (before : string) (c m d k : ascii) (after : string),
    s = before ++ String c (String m (String d (String k after)))
    /\ RegExp.is_line_terminator c = false
    /\ (m = "m" \/ m = "M")%char
    /\ (d = "d" \/ d = "D")%char
    /\ (k = "c" \/ k = "C")%char.

(** [s] holds [p] when the case of letters is left aside. *)
Definition occurs_ignoring_case (p s : string) : Prop :=
  exists before after,
    JsString.toLowerCase s = before ++ JsString.toLowerCase p ++ after.

(** *** Vocabulary for further properties of the prober *)

(** [fileTypes[key] || 0]: the count kept for a key, 0 when there is none. *)
Fixpoint count_for (key : string) (h : list (string * nat)) : nat :=
  match h with
  | [] => 0
  | (k, n) :: rest => if String.eqb k key then n else count_for key rest
  end.

(** ** Sample data

    A small world for the closing examples: two repositories, a clone with
    skipped directories, a clone with an entry that cannot be inspected, and
    a host engine asked for one malformed source only. *)

Module Sample.

(** The host on the source [.*(]: [SyntaxError], an unterminated group. *)
Definition host : RegExp.engine := fun _ => inl "Unterminated group".

Definition JSON_parse (text : string) : option string := Some text.

Definition tempDir : string := "/tmp/github-analysis-1752500000000".

Definition dotfiles : RepoInfo :=
  {| name := "dotfiles"; owner := "ada"; url := "https://github.com/ada/dotfiles";
     description := "shell setup"; stars := 42; language := "Shell" |}.

Definition rules : RepoInfo :=
  {| name := "rules"; owner := "bob"; url := "https://github.com/bob/rules";
     description := ""; stars := 0; language := "Unknown" |}.

Definition gone : RepoInfo :=
  {| name := "gone"; owner := "eve"; url := "https://github.com/eve/gone";
     description := ""; stars := 1; language := "Unknown" |}.

Definition dotfiles_tree : node :=
  Dir (inr [ ("README.md", File 120 (Some "# dotfiles"));
             (".git", Dir (inr [ ("config", File 90 None);
                                 ("hooks.zsh", File 10 None) ]));
             (".github", Dir (inl EACCES));
             ("node_modules", Dir (inr [ ("left.zsh", File 7 None) ]));
             ("zsh", Dir (inr [ ("aliases.zsh", File 300 None);
                                ("prompt.ZSH", File 80 None) ]));
             ("install.bash", File 55 None);
             ("package.json", File 2 (Some "{}")) ]).

Definition rules_tree : node :=
  Dir (inr [ ("rules.mdc", File 12 None);
             ("dangling", NoStat ENOENT);
             ("later.mdc", File 1 None) ]).

Definition gh_search (query : string) (limit : jsnum)
  : error + list RepoInfo :=
  if String.eqb query "dotfiles" then inr [gone; rules; dotfiles]
  else inl (ExecError "gh search repos" "HTTP 401").

Definition git_clone (url repoPath : string) : error + node :=
  if String.eqb url "https://github.com/ada/dotfiles" then inr dotfiles_tree
  else if String.eqb url "https://github.com/bob/rules" then inr rules_tree
  else inl (ExecError "git clone" "repository not found").

Definition dotfiles_clone : string :=
  "/tmp/github-analysis-1752500000000/ada-dotfiles".

(** The paths [l] below the directory [dir]. *)
Definition below (dir : string) (l : list string) : list string :=
  map (fun p => dir ++ "/" ++ p) l.

End Sample.
(** ** The analyzer: matcher, prober, orchestrator and reporter *)

Section Analyzer.

(** The host's regular-expression engine for the sources that [RegExp]
    does not compile itself. *)
Variable host : RegExp.engine.

(** [JSON.parse]: the parsed value, [None] when it throws. *)
Variable JSON : Type.
Variable JSON_parse : string -> option JSON.

(** The search tool: [gh search repos "<query>" --limit <limit> --json ...]
    run by [execSync], its output parsed and mapped to [RepoInfo]. *)
Variable gh_search : string -> jsnum -> error + list RepoInfo.

(** [git clone --depth 1 <url> "<repoPath>"] run by [execSync]: the error,
    or the node that the clone leaves at [repoPath]. *)
Variable git_clone : string -> string -> error + node.

(** [this.tempDir], fixed by the constructor. *)
Variable tempDir : string.

(** *** The pattern matcher *)

(** [file.split(path.sep).slice(-3).join('/')] *)
Definition relativePath (file : string) : string :=
  JsString.join "/" (JsString.slice_last 3 (JsString.split JsString.slash file)).

(** The callback of [patterns.some]: one pattern against the two keys of a
    file. *)
Definition pattern_matches (basename relativePath pattern : string)
  : error + bool :=
  if JsString.includes pattern "*" then
    let source := JsString.replace_stars pattern in
    match RegExp.compile host source with
    | inl detail => inl (SyntaxError source detail)
    | inr regex =>
        inr (RegExp.test regex basename || RegExp.test regex relativePath)
    end
  else
    inr (JsString.includes (JsString.toLowerCase basename)
                           (JsString.toLowerCase pattern)
         || JsString.includes (JsString.toLowerCase relativePath)
                              (JsString.toLowerCase pattern)).

(** [patterns.some(...)]: the patterns in order, up to the first that
    matches. *)
Fixpoint some_pattern (basename relativePath : string) (patterns : list string)
  : error + bool :=
  match patterns with
  | [] => inr false
  | pattern :: rest =>
      match pattern_matches basename relativePath pattern with
      | inl e => inl e
      | inr true => inr true
      | inr false => some_pattern basename relativePath rest
      end
  end.

(** The callback of [files.filter]: [matches(file, patterns)]. *)
Definition matches (file : string) (patterns : list string) : error + bool :=
  some_pattern (Path.basename file) (relativePath file) patterns.

(** [findMatchingFiles(files, patterns)] *)
Fixpoint findMatchingFiles (files patterns : list string)
  : error + list string :=
  match files with
  | [] => inr []
  | file :: rest =>
      match matches file patterns with
      | inl e => inl e
      | inr keep =>
          match findMatchingFiles rest patterns with
          | inl e => inl e
          | inr kept => inr (if keep then file :: kept else kept)
          end
      end
  end.

(** *** The prober *)

Record Analysis : Type := mkAnalysis {
  totalFiles : nat;
  fileTypes : list (string * nat);
  structure : list (string * entry_kind);
  readme : option string;
  packageJson : option string;
  packageData : option JSON;
  specialFiles : list SpecialFile;
  error_field : option string
}.

(** [fileTypes[key] = (fileTypes[key] || 0) + 1]: a new key goes last. *)
Fixpoint bump (key : string) (h : list (string * nat)) : list (string * nat) :=
  match h with
  | [] => [(key, 1)]
  | (k, n) :: rest =>
      if String.eqb k key then (k, n + 1) :: rest else (k, n) :: bump key rest
  end.

(** [ext || 'no-extension'] with [ext = path.extname(file).toLowerCase()] *)
Definition type_key (file : string) : string :=
  let ext := JsString.toLowerCase (Path.extname file) in
  if JsString.truthy ext then ext else "no-extension".

Definition histogram (allFiles : list string) : list (string * nat) :=
  fold_left (fun h file => bump (type_key file) h) allFiles [].

(** [/readme/i.test(path.basename(file))] *)
Definition is_readme (file : string) : bool :=
  RegExp.search
    (map (fun c => (RegExp.Lit c, RegExp.One))
         (list_ascii_of_string "readme"))
    (Path.basename file).

(** [structure[item] = kind] *)
Fixpoint set_key (item : string) (kind : entry_kind)
    (o : list (string * entry_kind)) : list (string * entry_kind) :=
  match o with
  | [] => [(item, kind)]
  | (k, v) :: rest =>
      if String.eqb k item then (k, kind) :: rest
      else (k, v) :: set_key item kind rest
  end.

(** [f.replace(repoPath, '').replace(/^\//, '')] *)
Definition relative (repoPath f : string) : string :=
  JsString.strip_leading_slash (JsString.replace_first f repoPath).

(** The callback of [matchingFiles.map] in the prober, in order. *)
Fixpoint special_files (repoPath : string) (root : node)
    (matching : list string) : error + list SpecialFile :=
  match matching with
  | [] => inr []
  | f :: rest =>
      match statSync repoPath root f with
      | inl e => inl e
      | inr n =>
          match special_files repoPath root rest with
          | inl e => inl e
          | inr l => inr ({| sf_path := relative repoPath f;
                             sf_size := size_of n |} :: l)
          end
      end
  end.

(** The loop over the top-level items: the structure filled so far, and the
    exception of [statSync] that stopped it, if any. *)
Fixpoint top_level (repoPath : string) (items : entries)
    (o : list (string * entry_kind))
  : list (string * entry_kind) * option error :=
  match items with
  | [] => (o, None)
  | (item, child) :: rest =>
      match child with
      | NoStat c =>
          (o, Some (SystemError c "stat" (Path.join [repoPath; item])))
      | Dir _ => top_level repoPath rest (set_key item KDirectory o)
      | File _ _ => top_level repoPath rest (set_key item KFile o)
      end
  end.

Definition initial_analysis : Analysis :=
  mkAnalysis 0 [] [] None None None [] None.

(** The [catch] block of the prober: [analysis.error = error.message],
    the fields written before the exception stay. *)
Definition failed (a : Analysis) (e : error) : Analysis :=
  mkAnalysis (totalFiles a) (fileTypes a) (structure a) (readme a)
             (packageJson a) (packageData a) (specialFiles a)
             (Some (message e)).

(** [analyzeRepository(repoPath, repo, filePatterns)], [root] being the
    node at [repoPath]: the analysis, and what went to the console. *)
Definition analyzeRepository (repoPath : string) (root : node)
    (repo : RepoInfo) (filePatterns : list string)
  : Analysis * list event :=
  let caught a e := (failed a e, [ErrAnalyzing repo e]) in
  match getAllFiles repoPath root [] with
  | inl e => caught initial_analysis e
  | inr allFiles =>
      let packageJsonFiles :=
        filter (fun f => String.eqb (Path.basename f) "package.json") allFiles in
      let a1 :=
        mkAnalysis
          (List.length allFiles)
          (histogram allFiles)
          []
          (hd_error (filter is_readme allFiles))
          (hd_error packageJsonFiles)
          (match packageJsonFiles with
           | [] => None
           | f :: _ =>
               match readFileSync repoPath root f with
               | inr packageContent => JSON_parse packageContent
               | inl _ => None
               end
           end)
          []
          None in
      match findMatchingFiles allFiles filePatterns with
      | inl e => caught a1 e
      | inr matching =>
          match special_files repoPath root matching with
          | inl e => caught a1 e
          | inr special =>
              let a2 :=
                mkAnalysis (totalFiles a1) (fileTypes a1) [] (readme a1)
                           (packageJson a1) (packageData a1) special None in
              match readdirSync repoPath root with
              | inl e => caught a2 e
              | inr topLevelItems =>
                  let '(o, stopped) := top_level repoPath topLevelItems [] in
                  let a3 :=
                    mkAnalysis (totalFiles a2) (fileTypes a2) o (readme a2)
                               (packageJson a2) (packageData a2)
                               (specialFiles a2) None in
                  match stopped with
                  | Some e => caught a3 e
                  | None => (a3, [])
                  end
              end
          end
      end
  end.

(** *** The orchestrator *)

Record AnalysisResult : Type := {
  repo : RepoInfo;
  localPath : string;
  files : list string;
  matchingFiles : list string;
  analysis : Analysis
}.

(** The state of a run: [this.results] and the console. *)
Record state : Type := {
  results : list AnalysisResult;
  console : list event
}.

(** A method: it reads and writes the state, and returns or throws. *)
Definition M (A : Type) : Type := state -> (error + A) * state.

Definition ret {A : Type} (a : A) : M A := fun s => (inr a, s).

Definition throw {A : Type} (e : error) : M A := fun s => (inl e, s).

Definition bind {A B : Type} (m : M A) (k : A -> M B) : M B :=
  fun s =>
    match m s with
    | (inr a, s') => k a s'
    | (inl e, s') => (inl e, s')
    end.

(** [try { m } catch (error) { handler(error) }] *)
Definition try_catch {A : Type} (m : M A) (handler : error -> M A) : M A :=
  fun s =>
    match m s with
    | (inl e, s') => handler e s'
    | r => r
    end.

(** A call that throws or returns without touching the state. *)
Definition lift {A : Type} (r : error + A) : M A := fun s => (r, s).

Definition log (ev : event) : M unit :=
  fun s => (inr tt, {| results := results s; console := (console s ++ [ev])%list |}).

Definition logs (evs : list event) : M unit :=
  fun s => (inr tt, {| results := results s; console := (console s ++ evs)%list |}).

(** [this.results.push(r)] *)
Definition push (r : AnalysisResult) : M unit :=
  fun s => (inr tt, {| results := (results s ++ [r])%list; console := console s |}).

Definition get_results : M (list AnalysisResult) :=
  fun s => (inr (results s), s).

Notation "x <- m ;; k" := (bind m (fun x => k))
  (at level 61, m at next level, right associativity).
Notation "m ;;; k" := (bind m (fun _ => k))
  (at level 61, right associativity).

(** [searchRepositories(query, limit)] *)
Definition searchRepositories (query : string) (limit : jsnum)
  : M (list RepoInfo) :=
  try_catch
    (log (LogSearching query) ;;;
     lift (gh_search query limit))
    (fun e => log (ErrSearching e) ;;; throw e).

(** [cloneRepository(repo)]: the path of the clone, with the node that
    [git clone] left there. *)
Definition cloneRepository (repo : RepoInfo) : M (string * node) :=
  let repoPath := Path.join [tempDir; owner repo ++ "-" ++ name repo] in
  try_catch
    (log (LogCloning repo) ;;;
     root <- lift (git_clone (url repo) repoPath) ;;
     ret (repoPath, root))
    (fun e => log (ErrFailedToClone repo e) ;;; throw e).

(** The body of the loop of [analyzeRepositories], with its own
    [try]/[catch]. *)
Definition process (filePatterns : list string) (repo : RepoInfo) : M unit :=
  try_catch
    (clone <- cloneRepository repo ;;
     let '(localPath, root) := clone in
     allFiles <- lift (getAllFiles localPath root []) ;;
     matchingFiles <- lift (findMatchingFiles allFiles filePatterns) ;;
     let '(analysis, evs) := analyzeRepository localPath root repo filePatterns in
     logs evs ;;;
     push {| repo := repo;
             localPath := localPath;
             files := map (relative localPath) allFiles;
             matchingFiles := map (relative localPath) matchingFiles;
             analysis := analysis |} ;;;
     log (LogAnalyzed repo (List.length matchingFiles)))
    (fun e => log (ErrFailedToAnalyze repo e)).

(** Where [cloneRepository] puts the clone of [repo]. *)
Definition clone_path (repo : RepoInfo) : string :=
  Path.join [tempDir; owner repo ++ "-" ++ name repo].

(** One turn of the loop as a function: the results it appends and the
    events it sends to the console ([process_outcome] below). *)
Definition outcome (filePatterns : list string) (repo : RepoInfo)
  : list AnalysisResult * list event :=
  match git_clone (url repo) (clone_path repo) with
  | inl e =>
      ([], [LogCloning repo; ErrFailedToClone repo e; ErrFailedToAnalyze repo e])
  | inr root =>
      match getAllFiles (clone_path repo) root [] with
      | inl e => ([], [LogCloning repo; ErrFailedToAnalyze repo e])
      | inr allFiles =>
          match findMatchingFiles allFiles filePatterns with
          | inl e => ([], [LogCloning repo; ErrFailedToAnalyze repo e])
          | inr matching =>
              let '(a, evs) :=
                analyzeRepository (clone_path repo) root repo filePatterns in
              ([{| repo := repo;
                   localPath := clone_path repo;
                   files := map (relative (clone_path repo)) allFiles;
                   matchingFiles := map (relative (clone_path repo)) matching;
                   analysis := a |}],
               (LogCloning repo :: evs
                ++ [LogAnalyzed repo (List.length matching)])%list)
          end
      end
  end.

(** The results that one repository contributes. *)
Definition contribution (filePatterns : list string) (repo : RepoInfo)
  : list AnalysisResult :=
  fst (outcome filePatterns repo).

(** [for (const repo of repos) { ... }] *)
Fixpoint for_each (filePatterns : list string) (repos : list RepoInfo) : M unit :=
  match repos with
  | [] => ret tt
  | repo :: rest => process filePatterns repo ;;; for_each filePatterns rest
  end.

(** [analyzeRepositories(query, filePatterns, limit)] *)
Definition analyzeRepositories (query : string) (filePatterns : list string)
    (limit : jsnum) : M (list AnalysisResult) :=
  try_catch
    (repos <- searchRepositories query limit ;;
     log (LogFound (List.length repos)) ;;;
     for_each filePatterns repos ;;;
     get_results)
    (fun e => log (ErrAnalysisProcess e) ;;; throw e).

(** *** The reporter *)

(** [entries.sort(([,a], [,b]) => b - a)]: by count, largest first; the
    sort is stable. *)
Fixpoint insert_desc (x : string * nat) (l : list (string * nat))
  : list (string * nat) :=
  match l with
  | [] => [x]
  | y :: rest =>
      if (snd y <=? snd x)%nat then x :: l else y :: insert_desc x rest
  end.

Definition sort_desc (l : list (string * nat)) : list (string * nat) :=
  fold_right insert_desc [] l.

Definition concat_map {A : Type} (f : A -> string) (l : list A) : string :=
  fold_right (fun x acc => f x ++ acc) "" l.

(** The lines that head every entry. *)
Definition entry_heading (index : nat) (r : AnalysisResult) : string :=
  "## " ++ JsString.of_nat (index + 1) ++ ". "
    ++ owner (repo r) ++ "/" ++ name (repo r) ++ nl ++ nl
  ++ "**Description:** " ++ description (repo r) ++ nl
  ++ "**Stars:** " ++ JsString.of_nat (stars (repo r))
    ++ " | **Language:** " ++ language (repo r) ++ nl
  ++ "**URL:** " ++ url (repo r) ++ nl ++ nl.

(** The file and type statistics of an entry. *)
Definition entry_statistics (r : AnalysisResult) : string :=
  let matching := matchingFiles r in
  let topTypes := firstn 5 (sort_desc (fileTypes (analysis r))) in
  "**Files:** " ++ JsString.of_nat (totalFiles (analysis r)) ++ " total" ++ nl
  ++ "**Matching files:** " ++ JsString.of_nat (List.length matching) ++ nl ++ nl
  ++ (match matching with
      | [] => ""
      | _ :: _ =>
          "**Matching files found:**" ++ nl
          ++ concat_map (fun f => "- " ++ f ++ nl) (firstn 10 matching)
          ++ (if (10 <? List.length matching)%nat
              then "- ... and " ++ JsString.of_nat (List.length matching - 10)
                     ++ " more" ++ nl
              else "")
          ++ nl
      end)
  ++ (match topTypes with
      | [] => ""
      | _ :: _ =>
          "**Top file types:**" ++ nl
          ++ concat_map
               (fun t => "- " ++ fst t ++ ": " ++ JsString.of_nat (snd t)
                          ++ " files" ++ nl)
               topTypes
          ++ nl
      end)
  ++ "---" ++ nl ++ nl.

(** [if (analysis.error)]: the field is there and is a non-empty string. *)
Definition error_shown (a : Analysis) : option string :=
  match error_field a with
  | Some m => if JsString.truthy m then Some m else None
  | None => None
  end.

(** The callback of [this.results.forEach] in [generateReport]. *)
Definition report_entry (index : nat) (r : AnalysisResult) : string :=
  entry_heading index r
  ++ match error_shown (analysis r) with
     | Some m => "**Error:** " ++ m ++ nl ++ nl
     | None => entry_statistics r
     end.

Fixpoint report_entries (index : nat) (rs : list AnalysisResult) : string :=
  match rs with
  | [] => ""
  | r :: rest => report_entry index r ++ report_entries (S index) rest
  end.

(** [generateReport()], [now] being [new Date().toISOString()]. *)
Definition generateReport (now : string) (rs : list AnalysisResult) : string :=
  "# GitHub Repository Analysis Report" ++ nl ++ nl
  ++ "Generated on: " ++ now ++ nl
  ++ "Total repositories analyzed: " ++ JsString.of_nat (List.length rs) ++ nl ++ nl
  ++ report_entries 0 rs.


(** *** Reading a file of an analyzed repository *)

(** What [readFileContent] throws: its own two errors, the [TypeError] of
    reading [localPath] of [undefined], or an exception of [readFileSync]. *)
Inductive read_error : Type :=
| InvalidRepositoryIndex
| UndefinedResult
| FileNotFound (filePath : string)
| ReadError (e : error).

(** [this.results[repoIndex]] for an integer index: [undefined] below 0 and
    from the length on. *)
Definition result_at (rs : list AnalysisResult) (repoIndex : Z)
  : option AnalysisResult :=
  if (repoIndex <? 0)%Z then None else nth_error rs (Z.to_nat repoIndex).

(** [fs.existsSync(p)]: whether [statSync] would succeed. *)
Definition existsSync (mount : string) (root : node) (p : string) : bool :=
  match lookup mount root p with
  | inr (NoStat _) | inl _ => false
  | inr _ => true
  end.

(** The node at the path of a clone: what [git clone] left there. *)
Definition clone_at (res : AnalysisResult) : node :=
  match git_clone (url (repo res)) (localPath res) with
  | inr root => root
  | inl _ => NoStat ENOENT
  end.

(** [readFileContent(repoIndex, filePath)], for an integer [repoIndex]; the
    file system holds the clones, so a path that leaves the clone finds
    nothing. *)
Definition readFileContent (s : state) (repoIndex : Z) (filePath : string)
  : read_error + string :=
  if (Z.of_nat (List.length (results s)) <=? repoIndex)%Z
  then inl InvalidRepositoryIndex
  else
    match result_at (results s) repoIndex with
    | None => inl UndefinedResult
    | Some res =>
        let fullPath := Path.join [localPath res; filePath] in
        if existsSync (localPath res) (clone_at res) fullPath then
          match readFileSync (localPath res) (clone_at res) fullPath with
          | inl e => inl (ReadError e)
          | inr text => inr text
          end
        else inl (FileNotFound filePath)
    end.

(** *** The file types of a report entry *)

(** The lines that [generateReport] writes for [topTypes]: nothing when
    there is none, else a title, one line for each and an empty line. *)
Definition types_block (topTypes : list (string * nat)) : string :=
  match topTypes with
  | [] => ""
  | _ :: _ =>
      "**Top file types:**" ++ nl
      ++ concat_map
           (fun t => "- " ++ fst t ++ ": " ++ JsString.of_nat (snd t)
                      ++ " files" ++ nl)
           topTypes
      ++ nl
  end.

(* ================================================================ *)
(** * Part II. Properties *)
(* ================================================================ *)

Unset Implicit Arguments.
Set Default Proof Using "Type".

(** ** The command line *)

Lemma all_digits_spec (a : string) :
  JsString.all_digits a = true <->
  forall c, In c (list_ascii_of_string a) -> (48 <= nat_of_ascii c <= 57)%nat.
Proof.
  induction a as [|c a IH]; simpl.
  - split; [intros _ c [] | reflexivity].
  - rewrite andb_true_iff, IH. unfold JsString.is_digit.
    rewrite andb_true_iff, !Nat.leb_le. split.
    + intros [Hc Ha] d [<- | Hd]; auto.
    + intros H. split; [apply H; now left | intros d Hd; apply H; now right].
Qed.

Lemma matches_digits_spec (a : string) :
  JsString.matches_digits a = true <-> Cli.digits_only a.
Proof.
  unfold Cli.digits_only. destruct a as [|c a].
  - simpl. split; [discriminate | intros [H _]; now elim H].
  - change (JsString.matches_digits (String c a))
      with (JsString.all_digits (String c a)).
    rewrite all_digits_spec.
    split; [intros H; split; [discriminate | exact H] | intros [_ H]; exact H].
Qed.

Lemma excluded_dec (a : string) : {Cli.excluded a} + {~ Cli.excluded a}.
Proof.
  destruct (String.eqb a "--limit") eqn:E.
  - left. left. now apply String.eqb_eq.
  - destruct (JsString.matches_digits a) eqn:D.
    + left. right. now apply matches_digits_spec.
    + right. intros [H | H].
      * apply String.eqb_neq in E. contradiction.
      * apply matches_digits_spec in H. congruence.
Defined.

(** C7, as the code has it: [--limit abc] makes the limit [NaN], and [abc]
    one of the file patterns. *)
Example limit_non_numeric_is_NaN :
  Cli.main_args ["dotfiles"; "--limit"; "abc"] = Cli.Run "dotfiles" ["abc"] NaN.
Proof. reflexivity. Qed.

(** Whatever follows the first [--limit] and is non-empty goes through
    [parseInt], so the limit is 10 only when [parseInt] says so. *)
Lemma limit_of_after_limit (args : list string) (v : string) :
  Cli.after_limit args = Some v -> JsString.truthy v = true ->
  Cli.limit_of args = ParseInt.parseInt v.
Proof.
  intros H T. unfold Cli.limit_of. now rewrite H, T.
Qed.

(** The default applies when [--limit] is absent, last, or followed by the
    empty string. *)
Lemma limit_of_default (args : list string) :
  Cli.after_limit args = None \/ Cli.after_limit args = Some "" ->
  Cli.limit_of args = Num 10.
Proof.
  unfold Cli.limit_of. intros [-> | ->]; reflexivity.
Qed.

(** C8 as it is worded fails: an all-digit pattern is dropped although no
    [--limit] stands before it. *)
Example filePatterns_drop_any_number :
  ~ (forall args query patterns limit,
        Cli.main_args args = Cli.Run query patterns limit ->
        patterns = Cli.filePatterns_spec args).
Proof.
  intros H.
  specialize (H ["notes"; "2024"] "notes" [] (Num 10) eq_refl).
  discriminate H.
Qed.

Lemma filePatterns_of_exact (args : list string) :
  Cli.filePatterns_of args =
  filter (fun a => if excluded_dec a then false else true) (tl args).
Proof.
  unfold Cli.filePatterns_of. apply filter_ext. intros a.
  destruct (excluded_dec a) as [[H | H] | H].
  - subst a. reflexivity.
  - apply matches_digits_spec in H. rewrite H. apply andb_false_r.
  - destruct (String.eqb a "--limit") eqn:E.
    + apply String.eqb_eq in E. elim H. now left.
    + destruct (JsString.matches_digits a) eqn:D; [|reflexivity].
      elim H. right. now apply matches_digits_spec.
Qed.

(** C8, amended: when [main] runs the analysis, the file patterns are the
    arguments after the first, in their order, that are neither [--limit]
    nor made of decimal digits only, wherever they stand. *)
Theorem filePatterns_exact (args : list string) (query : string)
    (patterns : list string) (limit : jsnum) :
  Cli.main_args args = Cli.Run query patterns limit ->
  patterns = filter (fun a => if excluded_dec a then false else true) (tl args).
Proof.
  unfold Cli.main_args. destruct args as [|q rest]; [discriminate|].
  destruct (Cli.includes_arg (q :: rest) "--help"); [discriminate|].
  intros H. injection H as _ <- _. apply filePatterns_of_exact.
Qed.

(** A token after [--limit] that is not all digits is kept as a pattern. *)
Example filePatterns_keep_limit_value :
  Cli.filePatterns_of ["q"; "--limit"; "12abc"; "*.zsh"] = ["12abc"; "*.zsh"].
Proof. reflexivity. Qed.

(** Where the only all-digit arguments are the ones that follow a
    [--limit], the code and the specification's wording agree. *)
Lemma filePatterns_spec_agree (l : list string) :
  (forall pre a post, l = (pre ++ a :: post)%list ->
                      JsString.matches_digits a = true ->
                      exists pre', pre = (pre' ++ ["--limit"])%list) ->
  filter (fun arg => negb (String.eqb arg "--limit")
                     && negb (JsString.matches_digits arg)) l
  = Cli.drop_limit_flag l.
Proof.
  remember (List.length l) as n eqn:Hn. revert l Hn.
  induction n as [n IH] using lt_wf_ind. intros l Hn H.
  destruct l as [|a rest]; [reflexivity|].
  assert (Ha : JsString.matches_digits a = false).
  { destruct (JsString.matches_digits a) eqn:D; [|reflexivity].
    destruct (H [] a rest eq_refl D) as [pre' Hp].
    destruct pre'; discriminate. }
  simpl. rewrite Ha. destruct (String.eqb a "--limit") eqn:E; simpl.
  - apply String.eqb_eq in E. subst a.
    destruct rest as [|v rest']; [reflexivity|].
    destruct (JsString.matches_digits v) eqn:D.
    + simpl. rewrite D, andb_false_r.
      apply (IH (List.length rest')); [simpl in Hn; lia | reflexivity |].
      intros pre a post -> Da.
      destruct (H ("--limit" :: v :: pre) a post eq_refl Da) as [pre' Hp].
      destruct pre' as [|x [|y pre'']].
      * discriminate.
      * simpl in Hp. injection Hp as _ Hv _. subst v. discriminate D.
      * simpl in Hp. injection Hp as _ _ Hp'. exists pre''. exact Hp'.
    + apply (IH (List.length (v :: rest'))); [simpl in *; lia | reflexivity |].
      intros pre a post Hl Da.
      destruct (H ("--limit" :: pre) a post) as [pre' Hp];
        [now rewrite Hl | exact Da |].
      destruct pre' as [|x pre''].
      * simpl in Hp. injection Hp as Hp. subst pre. simpl in Hl.
        injection Hl as Hv _. subst a. congruence.
      * simpl in Hp. injection Hp as _ Hp. exists pre''. exact Hp.
  - f_equal. apply (IH (List.length rest)); [simpl in Hn; lia | reflexivity |].
    intros pre b post -> Db.
    destruct (H (a :: pre) b post eq_refl Db) as [pre' Hp].
    destruct pre' as [|x pre''].
    + simpl in Hp. injection Hp as Hp Hq. subst a. discriminate.
    + simpl in Hp. injection Hp as _ Hp. exists pre''. exact Hp.
Qed.

(** ** Strings and paths *)

Lemma startsWith_app (p s : string) : JsString.startsWith (p ++ s) p = true.
Proof.
  induction p as [|c p IH]; simpl; [reflexivity|].
  now rewrite Ascii.eqb_refl, IH.
Qed.

Lemma drop_app (p s : string) : JsString.drop (String.length p) (p ++ s) = s.
Proof.
  induction p as [|c p IH]; simpl; [now destruct s | exact IH].
Qed.

Lemma replace_first_prefix (p s : string) : JsString.replace_first (p ++ s) p = s.
Proof.
  destruct (p ++ s) eqn:E; simpl.
  - destruct p; [|discriminate]. simpl in E. subst s. reflexivity.
  - rewrite <- E, startsWith_app, drop_app.
    destruct p; simpl; reflexivity.
Qed.

Lemma append_assoc (a b c : string) : (a ++ b) ++ c = a ++ (b ++ c).
Proof. induction a as [|x a IH]; simpl; [reflexivity | now rewrite IH]. Qed.

Lemma append_empty_r (a : string) : a ++ "" = a.
Proof. induction a as [|x a IH]; simpl; [reflexivity | now rewrite IH]. Qed.

Lemma includes_slash_cons (c : ascii) (s : string) :
  JsString.includes (String c s) "/"
  = Ascii.eqb "/"%char c || JsString.includes s "/".
Proof. simpl. now rewrite andb_true_r. Qed.

Lemma split_nonempty (sep : ascii) (s : string) : JsString.split sep s <> [].
Proof.
  induction s as [|c s IH]; simpl; [discriminate|].
  destruct (Ascii.eqb c sep); [discriminate|].
  destruct (JsString.split sep s); [contradiction | discriminate].
Qed.

Lemma split_no_slash (s : string) :
  JsString.includes s "/" = false -> JsString.split JsString.slash s = [s].
Proof.
  induction s as [|c s IH]; [reflexivity|].
  rewrite includes_slash_cons, orb_false_iff. intros [Hc Hs].
  specialize (IH Hs). unfold JsString.slash in *.
  simpl. rewrite Ascii.eqb_sym in Hc. rewrite Hc.
  now rewrite IH.
Qed.

Lemma split_app_slash (x rest : string) :
  JsString.includes x "/" = false ->
  JsString.split JsString.slash (x ++ "/" ++ rest)
  = x :: JsString.split JsString.slash rest.
Proof.
  induction x as [|c x IH]; intros H.
  - reflexivity.
  - rewrite includes_slash_cons, orb_false_iff in H. destruct H as [Hc Hx].
    specialize (IH Hx). unfold JsString.slash in *.
    rewrite Ascii.eqb_sym in Hc. simpl in IH.
    simpl. rewrite Hc. now rewrite IH.
Qed.

Lemma split_join (segs : list string) :
  segs <> [] ->
  Forall (fun n => JsString.includes n "/" = false) segs ->
  JsString.split JsString.slash (JsString.join "/" segs) = segs.
Proof.
  induction segs as [|x rest IH]; intros Hne Hall; [contradiction|].
  inversion Hall as [|? ? Hx Hrest]; subst.
  destruct rest as [|y rest'].
  - simpl. now apply split_no_slash.
  - change (JsString.join "/" (x :: y :: rest'))
      with (x ++ "/" ++ JsString.join "/" (y :: rest')).
    rewrite split_app_slash by assumption.
    f_equal. apply IH; [discriminate | assumption].
Qed.

Lemma join_snoc (segs : list string) (n : string) :
  segs <> [] ->
  JsString.join "/" (segs ++ [n]) = JsString.join "/" segs ++ "/" ++ n.
Proof.
  induction segs as [|x rest IH]; intros Hne; [contradiction|].
  destruct rest as [|y rest'].
  - reflexivity.
  - change (JsString.join "/" ((x :: y :: rest') ++ [n]))
      with (x ++ "/" ++ JsString.join "/" ((y :: rest') ++ [n])).
    rewrite IH by discriminate.
    change (JsString.join "/" (x :: y :: rest'))
      with (x ++ "/" ++ JsString.join "/" (y :: rest')).
    now rewrite !append_assoc.
Qed.

Lemma plain_spec (n : string) :
  Path.plain n = true ->
  n <> "" /\ n <> "." /\ n <> ".." /\ JsString.includes n "/" = false.
Proof.
  unfold Path.plain. rewrite !andb_true_iff, !negb_true_iff.
  intros [[[H1 H2] H3] H4]. repeat split; try assumption;
    now apply String.eqb_neq.
Qed.

Lemma plain_no_slash (segs : list string) :
  Forall (fun n => Path.plain n = true) segs ->
  Forall (fun n => JsString.includes n "/" = false) segs.
Proof.
  intros H. eapply Forall_impl; [|exact H]. intros n Hn.
  now apply plain_spec in Hn.
Qed.

(** Normalizing keeps the plain segments, in order. *)
Lemma normalize_steps_plain (allow : bool) (segs res : list string) :
  Forall (fun n => Path.plain n = true) segs ->
  fold_left (Path.normalize_step allow) segs res = (rev segs ++ res)%list.
Proof.
  revert res. induction segs as [|x rest IH]; intros res Hall; [reflexivity|].
  inversion Hall as [|? ? Hx Hrest]; subst.
  apply plain_spec in Hx. destruct Hx as (H1 & H2 & H3 & _).
  simpl. unfold Path.normalize_step at 2.
  apply String.eqb_neq in H1, H2, H3. rewrite H1, H2, H3. simpl.
  rewrite IH by assumption. now rewrite <- app_assoc.
Qed.

Lemma last_plain (segs : list string) :
  segs <> [] -> Forall (fun n => Path.plain n = true) segs ->
  exists front l, segs = (front ++ [l])%list /\ Path.plain l = true.
Proof.
  intros Hne Hall. destruct (exists_last Hne) as (front & l & ->).
  exists front, l. split; [reflexivity|].
  apply Forall_app in Hall. destruct Hall as [_ Hl]. now inversion Hl.
Qed.

Lemma join_plain_nonempty (segs : list string) :
  segs <> [] -> Forall (fun n => Path.plain n = true) segs ->
  JsString.join "/" segs <> "".
Proof.
  intros Hne Hall. destruct segs as [|x rest]; [contradiction|].
  inversion Hall as [|? ? Hx _]; subst. apply plain_spec in Hx.
  destruct Hx as [Hx _]. destruct x; [contradiction|].
  destruct rest; discriminate.
Qed.

Lemma plain_not_slash_start (n : string) :
  Path.plain n = true -> JsString.startsWith n "/" = false.
Proof.
  intros H. apply plain_spec in H. destruct H as (Hne & _ & _ & H).
  destruct n as [|c n]; [contradiction|].
  rewrite includes_slash_cons, orb_false_iff in H. destruct H as [H _].
  cbn [JsString.startsWith]. now rewrite H.
Qed.

(** [path.normalize] leaves a clean path as it is. *)
Lemma endsWith_slash_rooted (segs : list string) :
  segs <> [] -> Forall (fun n => Path.plain n = true) segs ->
  Path.endsWith_slash (Path.rooted segs) = false.
Proof.
  intros Hne Hall. pose proof (plain_no_slash _ Hall) as Hns.
  unfold Path.endsWith_slash, Path.rooted.
  change ("/" ++ JsString.join "/" segs)
    with ("" ++ "/" ++ JsString.join "/" segs).
  rewrite split_app_slash by reflexivity. rewrite split_join by assumption.
  destruct (last_plain _ Hne Hall) as (front & l & -> & Hl).
  change ("" :: front ++ [l])%list with (("" :: front) ++ [l])%list.
  rewrite rev_app_distr.
  apply plain_spec in Hl. destruct Hl as [Hl _].
  apply String.eqb_neq in Hl.
  cbn [rev app]. 
  destruct (rev front ++ [""])%list eqn:Er.
  - destruct (rev front); discriminate.
  - exact Hl.
Qed.

Lemma normalizeString_rooted (segs : list string) :
  segs <> [] -> Forall (fun n => Path.plain n = true) segs ->
  Path.normalizeString (Path.rooted segs) false = JsString.join "/" segs.
Proof.
  intros Hne Hall. pose proof (plain_no_slash _ Hall) as Hns.
  unfold Path.normalizeString, Path.rooted.
  change ("/" ++ JsString.join "/" segs)
    with ("" ++ "/" ++ JsString.join "/" segs).
  rewrite split_app_slash by reflexivity. rewrite split_join by assumption.
  cbn [fold_left]. 
  change (Path.normalize_step false [] "") with (@nil string).
  rewrite normalize_steps_plain by assumption.
  now rewrite app_nil_r, rev_involutive.
Qed.

Lemma normalize_rooted (segs : list string) :
  segs <> [] -> Forall (fun n => Path.plain n = true) segs ->
  Path.normalize (Path.rooted segs) = Path.rooted segs.
Proof.
  intros Hne Hall.
  unfold Path.normalize.
  rewrite endsWith_slash_rooted, normalizeString_rooted by assumption.
  pose proof (join_plain_nonempty _ Hne Hall) as Hj.
  apply String.eqb_neq in Hj. rewrite Hj.
  reflexivity.
Qed.

(** [path.join(dir, file)] of a clean directory and a plain name is the
    two with a slash between, and is clean again. *)
Lemma join_clean (dir file : string) :
  Path.clean dir -> Path.plain file = true ->
  Path.join [dir; file] = dir ++ "/" ++ file /\ Path.clean (dir ++ "/" ++ file).
Proof.
  intros (segs & Hne & Hall & ->) Hf.
  assert (Hall' : Forall (fun n => Path.plain n = true) (segs ++ [file])).
  { apply Forall_app. split; [assumption | now constructor]. }
  assert (Hne' : (segs ++ [file])%list <> []) by (now destruct segs).
  assert (E : Path.rooted segs ++ "/" ++ file = Path.rooted (segs ++ [file])).
  { unfold Path.rooted. rewrite join_snoc by assumption.
    now rewrite append_assoc. }
  split.
  - unfold Path.join.
    assert (Hf' : JsString.truthy file = true).
    { apply plain_spec in Hf. destruct Hf as [Hf _]. now destruct file. }
    simpl filter. rewrite Hf'.
    change (JsString.join "/" [Path.rooted segs; file])
      with (Path.rooted segs ++ "/" ++ file).
    rewrite E. now apply normalize_rooted.
  - rewrite E. exists (segs ++ [file])%list. auto.
Qed.

(** ** The pattern matcher *)

(** The matcher of [RegExp] decides the language of the terms: a starred
    atom first. *)
Lemma repeat_spec (a : RegExp.atom) (k : string -> bool) (s : string) :
  RegExp.repeat a k s = true <->
  exists pre post,
    s = pre ++ post
    /\ RegExp.term_matches (a, RegExp.ZeroOrMore) pre /\ k post = true.
Proof.
  induction s as [|c s IH].
  - simpl. rewrite orb_false_r. split.
    + intros H. exists "", "". repeat split; [constructor | exact H].
    + intros (pre & post & E & _ & H).
      destruct pre; [simpl in E; subst post; exact H | discriminate].
  - cbn [RegExp.repeat]. rewrite orb_true_iff, andb_true_iff, IH. split.
    + intros [H | [Hc (pre & post & -> & Hm & Hk)]].
      * exists "", (String c s). repeat split; [constructor | exact H].
      * exists (String c pre), post. repeat split; [now constructor | exact Hk].
    + intros (pre & post & E & Hm & Hk). destruct pre as [|c' pre].
      * simpl in E. subst post. now left.
      * simpl in E. injection E as <- ->. inversion Hm; subst.
        right. split; [assumption|]. exists pre, post. auto.
Qed.

Lemma match_here_spec (ts : list RegExp.term) :
  forall s,
    RegExp.match_here ts s = true <->
    exists pre post, s = pre ++ post /\ RegExp.terms_match ts pre.
Proof.
  induction ts as [|[a q] rest IH]; intros s.
  - simpl. split; [|reflexivity].
    intros _. exists "", s. split; [reflexivity | constructor].
  - destruct q; cbn [RegExp.match_here].
    + destruct s as [|c s].
      * split; [discriminate|]. intros (pre & post & E & Hm).
        inversion Hm as [|t ts' s1 s2 H1 H2]; subst.
        inversion H1; subst. discriminate.
      * rewrite andb_true_iff, IH. split.
        -- intros [Hc (pre & post & -> & Hm)].
           exists (String c pre), post. split; [reflexivity|].
           change (String c pre) with (String c "" ++ pre).
           constructor; [now constructor | exact Hm].
        -- intros (pre & post & E & Hm).
           inversion Hm as [|t ts' s1 s2 H1 H2]; subst.
           inversion H1; subst. simpl in E. injection E as <- ->.
           split; [assumption|]. exists s2, post. auto.
    + rewrite repeat_spec. split.
      * intros (pre & post & -> & Hm & Hk). apply IH in Hk.
        destruct Hk as (pre2 & post2 & -> & Hm2).
        exists (pre ++ pre2), post2. split; [now rewrite append_assoc|].
        now constructor.
      * intros (pre & post & -> & Hm).
        inversion Hm as [|t ts' s1 s2 H1 H2]; subst.
        exists s1, (s2 ++ post). split; [now rewrite append_assoc|].
        split; [assumption|]. apply IH. exists s2, post. auto.
    + destruct s as [|c s].
      * split; [discriminate|]. intros (pre & post & E & Hm).
        inversion Hm as [|t ts' s1 s2 H1 H2]; subst.
        inversion H1; subst. discriminate.
      * rewrite andb_true_iff, repeat_spec. split.
        -- intros [Hc (pre & post & -> & Hm & Hk)]. apply IH in Hk.
           destruct Hk as (pre2 & post2 & -> & Hm2).
           exists (String c pre ++ pre2), post2.
           split; [simpl; now rewrite append_assoc|].
           constructor; [now constructor | exact Hm2].
        -- intros (pre & post & E & Hm).
           inversion Hm as [|t ts' s1 s2 H1 H2]; subst.
           inversion H1; subst. simpl in E. injection E as <- ->.
           split; [assumption|]. exists s0, (s2 ++ post).
           split; [now rewrite append_assoc|].
           split; [assumption|]. apply IH. exists s2, post. auto.
    + rewrite orb_true_iff, IH. split.
      * intros [(pre & post & -> & Hm) | H].
        -- exists pre, post. split; [reflexivity|].
           change pre with ("" ++ pre). constructor; [constructor | exact Hm].
        -- destruct s as [|c s]; [discriminate|].
           apply andb_true_iff in H. destruct H as [Hc H].
           apply IH in H. destruct H as (pre & post & -> & Hm).
           exists (String c pre), post. split; [reflexivity|].
           change (String c pre) with (String c "" ++ pre).
           constructor; [now constructor | exact Hm].
      * intros (pre & post & E & Hm).
        inversion Hm as [|t ts' s1 s2 H1 H2]; subst.
        inversion H1; subst.
        -- left. exists s2, post. auto.
        -- right. simpl. rewrite andb_true_iff. split; [assumption|].
           apply IH. exists s2, post. auto.
Qed.

(** [test] on compiled terms is true exactly when some substring of the
    input is in the language of the terms. *)
Lemma search_spec (ts : list RegExp.term) (s : string) :
  RegExp.search ts s = true <->
  exists before found after,
    s = before ++ found ++ after /\ RegExp.terms_match ts found.
Proof.
  induction s as [|c s IH]; cbn [RegExp.search].
  - rewrite orb_false_r, match_here_spec. split.
    + intros (pre & post & E & Hm). exists "", pre, post. auto.
    + intros (before & found & after & E & Hm).
      destruct before; [|discriminate]. exists found, after. auto.
  - rewrite orb_true_iff, match_here_spec, IH. split.
    + intros [(pre & post & E & Hm) | (before & found & after & -> & Hm)].
      * exists "", pre, post. auto.
      * exists (String c before), found, after. auto.
    + intros (before & found & after & E & Hm). destruct before as [|c' before].
      * left. exists found, after. auto.
      * right. simpl in E. injection E as <- ->. exists before, found, after. auto.
Qed.

(** [includes] looks for the pattern as a substring. *)
Lemma startsWith_spec (s p : string) :
  JsString.startsWith s p = true <-> exists rest, s = p ++ rest.
Proof.
  revert s. induction p as [|a p IH]; intros s.
  - simpl. split; [intros _; now exists s | reflexivity].
  - destruct s as [|b s]; cbn [JsString.startsWith].
    + split; [discriminate | intros [rest E]; discriminate].
    + rewrite andb_true_iff, Ascii.eqb_eq, IH. split.
      * intros [-> [rest ->]]. now exists rest.
      * intros [rest E]. simpl in E. injection E as -> ->. split; [reflexivity | now exists rest].
Qed.

Lemma includes_spec (s p : string) :
  JsString.includes s p = true <-> exists before after, s = before ++ p ++ after.
Proof.
  induction s as [|c s IH]; cbn [JsString.includes].
  - rewrite orb_false_r, startsWith_spec. split.
    + intros [rest E]. now exists "", rest.
    + intros (before & after & E). destruct before; [|discriminate]. now exists after.
  - rewrite orb_true_iff, startsWith_spec, IH. split.
    + intros [[rest E] | (before & after & ->)].
      * now exists "", rest.
      * now exists (String c before), after.
    + intros (before & after & E). destruct before as [|c' before].
      * left. now exists after.
      * right. simpl in E. injection E as <- ->. now exists before, after.
Qed.

Lemma replace_stars_app (a b : string) :
  JsString.replace_stars (a ++ b)
  = JsString.replace_stars a ++ JsString.replace_stars b.
Proof.
  induction a as [|c a IH]; [reflexivity|].
  simpl. rewrite IH. now destruct (Ascii.eqb c "*").
Qed.

Lemma relativePath_join (segs : list string) :
  segs <> [] ->
  Forall (fun n => JsString.includes n "/" = false) segs ->
  relativePath (JsString.join "/" segs)
  = JsString.join "/" (JsString.slice_last 3 segs).
Proof.
  intros Hne Hall. unfold relativePath. now rewrite split_join.
Qed.

Lemma findMatchingFiles_no_pattern (fs : list string) :
  findMatchingFiles fs [] = inr [].
Proof.
  induction fs as [|f fs IH]; [reflexivity|]. simpl. now rewrite IH.
Qed.

(** C3: with no pattern, no file matches: [matches(f, [])] is false for
    every path [f], and [findMatchingFiles] keeps nothing. *)
Theorem matches_no_pattern :
  (forall f : string, matches f [] = inr false)
  /\ (forall fs : list string, findMatchingFiles fs [] = inr []).
Proof.
  split; [reflexivity | exact findMatchingFiles_no_pattern].
Qed.

(** What [.*.mdc] finds under the flag [i]. *)
Lemma canonical_mdc (x : ascii) :
  (RegExp.atom_matches (RegExp.Lit "m") x = true <-> (x = "m" \/ x = "M")%char)
  /\ (RegExp.atom_matches (RegExp.Lit "d") x = true <-> (x = "d" \/ x = "D")%char)
  /\ (RegExp.atom_matches (RegExp.Lit "c") x = true <-> (x = "c" \/ x = "C")%char).
Proof.
  destruct x as [[] [] [] [] [] [] [] []]; vm_compute;
    repeat split; intros H;
    try discriminate H; try (destruct H as [H | H]; discriminate H);
    auto.
Qed.

Lemma mdc_search (s : string) :
  RegExp.search
    [(RegExp.AnyChar, RegExp.ZeroOrMore); (RegExp.AnyChar, RegExp.One);
     (RegExp.Lit "m", RegExp.One); (RegExp.Lit "d", RegExp.One);
     (RegExp.Lit "c", RegExp.One)] s = true
  <-> holds_mdc s.
Proof.
  rewrite search_spec. split.
  - intros (before & found & after & -> & Hm).
    inversion Hm as [|t1 ts1 s1 r1 _ H1]; subst.
    inversion H1 as [|t2 ts2 s2 r2 Hc H2]; subst.
    inversion H2 as [|t3 ts3 s3 r3 Hm3 H3]; subst.
    inversion H3 as [|t4 ts4 s4 r4 Hm4 H4]; subst.
    inversion H4 as [|t5 ts5 s5 r5 Hm5 H5]; subst.
    inversion H5; subst.
    inversion Hc as [a c Hc'| | | | |]; subst.
    inversion Hm3 as [a m Hm'| | | | |]; subst.
    inversion Hm4 as [a d Hd'| | | | |]; subst.
    inversion Hm5 as [a k Hk'| | | | |]; subst.
    exists (before ++ s1), c, m, d, k, after.
    split; [|split; [|split; [|split]]].
    + cbn [append]. now rewrite !append_assoc.
    + cbn [RegExp.atom_matches] in Hc'. now apply negb_true_iff in Hc'.
    + now apply (canonical_mdc m).
    + now apply (canonical_mdc d).
    + now apply (canonical_mdc k).
  - intros (before & c & m & d & k & after & -> & Hc & Hm & Hd & Hk).
    exists before, (String c (String m (String d (String k "")))), after.
    split; [reflexivity|].
    apply (@RegExp.tsm_cons (RegExp.AnyChar, RegExp.ZeroOrMore) _ ""
             (String c (String m (String d (String k ""))))); [constructor|].
    apply (@RegExp.tsm_cons (RegExp.AnyChar, RegExp.One) _ (String c "")
             (String m (String d (String k ""))));
      [constructor; cbn [RegExp.atom_matches]; now rewrite Hc|].
    apply (@RegExp.tsm_cons (RegExp.Lit "m", RegExp.One) _ (String m "")
             (String d (String k "")));
      [constructor; now apply (canonical_mdc m)|].
    apply (@RegExp.tsm_cons (RegExp.Lit "d", RegExp.One) _ (String d "")
             (String k ""));
      [constructor; now apply (canonical_mdc d)|].
    apply (@RegExp.tsm_cons (RegExp.Lit "c", RegExp.One) _ (String k "") "");
      [constructor; now apply (canonical_mdc k) | constructor].
Qed.

(** A file named [rules.md] against [*.mdc]: the base name does not match,
    so the fragment of the last three segments decides. *)
Lemma rules_md_against_mdc (file : string) :
  Path.basename file = "rules.md" ->
  matches file ["*.mdc"]
  = inr (RegExp.search
           [(RegExp.AnyChar, RegExp.ZeroOrMore); (RegExp.AnyChar, RegExp.One);
            (RegExp.Lit "m", RegExp.One); (RegExp.Lit "d", RegExp.One);
            (RegExp.Lit "c", RegExp.One)] (relativePath file)).
Proof.
  intros Hb. unfold matches. rewrite Hb.
  cbn [some_pattern]. unfold pattern_matches.
  change (JsString.includes "*.mdc" "*") with true. cbv iota.
  change (RegExp.compile host (JsString.replace_stars "*.mdc"))
    with (@inr string RegExp.regex
            (RegExp.Terms
               [(RegExp.AnyChar, RegExp.ZeroOrMore); (RegExp.AnyChar, RegExp.One);
                (RegExp.Lit "m", RegExp.One); (RegExp.Lit "d", RegExp.One);
                (RegExp.Lit "c", RegExp.One)])).
  cbv iota. cbn [RegExp.test].
  change (RegExp.search
            [(RegExp.AnyChar, RegExp.ZeroOrMore); (RegExp.AnyChar, RegExp.One);
             (RegExp.Lit "m", RegExp.One); (RegExp.Lit "d", RegExp.One);
             (RegExp.Lit "c", RegExp.One)] "rules.md") with false.
  cbn [orb].
  destruct (RegExp.search _ (relativePath file)); reflexivity.
Qed.

(** C2: a pattern with a star is turned into the regular expression whose
    source is the pattern with [.*] for every star and every other
    character as it stands, compiled with the flag [i]; it is tested on the
    base name and on the last three segments joined by slashes, and either
    match is enough.  So [*.mdc] matches every file named [rules.mdc] (in
    any case, and with any character where the pattern has its dot).  A file
    named [rules.md] is matched exactly when the fragment of its last three
    segments holds [mdc] after some character, as a directory above it may;
    the path [rules.md] alone is not matched. *)
Theorem glob_pattern_matches :
  (forall file pattern : string,
      JsString.includes pattern "*" = true ->
      matches file [pattern] =
      match RegExp.compile host (JsString.replace_stars pattern) with
      | inl detail => inl (SyntaxError (JsString.replace_stars pattern) detail)
      | inr regex =>
          inr (RegExp.test regex (Path.basename file)
               || RegExp.test regex (relativePath file))
      end)
  /\ (forall a b : string,
         JsString.replace_stars (a ++ b)
         = JsString.replace_stars a ++ JsString.replace_stars b)
  /\ JsString.replace_stars "*" = ".*"
  /\ (forall c : ascii, c <> "*"%char ->
         JsString.replace_stars (String c "") = String c "")
  /\ (forall segs : list string,
         segs <> [] ->
         Forall (fun n => JsString.includes n "/" = false) segs ->
         relativePath (JsString.join "/" segs)
         = JsString.join "/" (JsString.slice_last 3 segs))
  /\ (forall file : string,
         Path.basename file = "rules.mdc" -> matches file ["*.mdc"] = inr true)
  /\ matches "rules.mdc" ["*.mdc"] = inr true
  /\ matches "RULES.MDC" ["*.mdc"] = inr true
  /\ matches "rulesXmdc" ["*.mdc"] = inr true
  /\ matches "rules.md" ["*.mdc"] = inr false
  /\ (forall file : string,
         Path.basename file = "rules.md" ->
         (matches file ["*.mdc"] = inr true <-> holds_mdc (relativePath file))
         /\ (matches file ["*.mdc"] = inr false
             <-> ~ holds_mdc (relativePath file)))
  /\ (forall (file pattern : string) (ts : list RegExp.term),
         JsString.includes pattern "*" = true ->
         RegExp.compile host (JsString.replace_stars pattern)
         = inr (RegExp.Terms ts) ->
         (matches file [pattern] = inr true
          <-> exists before found after,
                (Path.basename file = before ++ found ++ after
                 \/ relativePath file = before ++ found ++ after)
                /\ RegExp.terms_match ts found)).
Proof.
  split; [|split; [|split; [|split; [|split; [|split; [|split; [|split;
    [|split; [|split; [|split]]]]]]]]]]; try reflexivity.
  - intros file pattern H. unfold matches. simpl. unfold pattern_matches.
    rewrite H. destruct (RegExp.compile host (JsString.replace_stars pattern)) as [d|re];
      [reflexivity|].
    now destruct (RegExp.test re (Path.basename file) || RegExp.test re (relativePath file)).
  - exact replace_stars_app.
  - intros c Hc. simpl. apply Ascii.eqb_neq in Hc. now rewrite Hc.
  - exact relativePath_join.
  - intros file Hb. unfold matches. rewrite Hb. reflexivity.
  - intros file Hb. rewrite (rules_md_against_mdc file Hb).
    rewrite <- mdc_search.
    destruct (RegExp.search _ (relativePath file)); split; split; intros H;
      first [ reflexivity | discriminate H
            | intros H'; discriminate H'
            | exfalso; apply H; reflexivity ].
  - intros file pattern ts Hstar Hc.
    assert (E : matches file [pattern]
                = inr (RegExp.search ts (Path.basename file)
                       || RegExp.search ts (relativePath file))).
    { unfold matches. cbn [some_pattern]. unfold pattern_matches.
      rewrite Hstar, Hc. cbn [RegExp.test].
      destruct (RegExp.search ts (Path.basename file)
                || RegExp.search ts (relativePath file)); reflexivity. }
    rewrite E. split.
    + intros H. injection H as H. apply orb_true_iff in H.
      destruct H as [H | H]; apply search_spec in H;
        destruct H as (before & found & after & Hs & Hm);
        exists before, found, after; (split; [|exact Hm]);
        [left | right]; exact Hs.
    + intros (before & found & after & [Hs | Hs] & Hm); f_equal;
        apply orb_true_iff; [left | right]; apply search_spec;
        exists before, found, after; split; assumption.
Qed.

(** The second key can make a file named [rules.md] match [*.mdc]: a
    directory among its last two parents is enough. *)
Example glob_matches_through_parent :
  matches "/tmp/clone/docs.mdc/rules.md" ["*.mdc"] = inr true.
Proof. reflexivity. Qed.

(** Without a star the pattern is looked for as it is, in lower case, in
    both keys. *)
Lemma literal_pattern_matches (file pattern : string) :
  JsString.includes pattern "*" = false ->
  matches file [pattern] =
  inr (JsString.includes (JsString.toLowerCase (Path.basename file))
                         (JsString.toLowerCase pattern)
       || JsString.includes (JsString.toLowerCase (relativePath file))
                            (JsString.toLowerCase pattern)).
Proof.
  intros H. unfold matches. simpl. unfold pattern_matches. rewrite H.
  now destruct (_ || _).
Qed.

(** ** The tree walker *)

(** Induction on a node, with the hypothesis for every listed child. *)
Lemma node_rect_children (P : node -> Prop) :
  (forall size content, P (File size content)) ->
  (forall c, P (Dir (inl c))) ->
  (forall es, Forall (fun e => P (snd e)) es -> P (Dir (inr es))) ->
  (forall c, P (NoStat c)) ->
  forall n, P n.
Proof.
  intros HF HE HD HN.
  fix IH 1. intros [size content | [c | es] | c].
  - apply HF.
  - apply HE.
  - apply HD. induction es as [|[file child] rest IHes]; constructor.
    + apply IH.
    + exact IHes.
  - apply HN.
Qed.

Lemma getAllFiles_Dir (dir : string) (es : entries) (acc : list string) :
  getAllFiles dir (Dir (inr es)) acc = walk_entries dir es acc.
Proof.
  revert acc. induction es as [|[file child] rest IH]; intros acc; [reflexivity|].
  simpl. destruct child as [size content | listing | c]; try reflexivity.
  - apply IH.
  - destruct (negb (skipped file)); [|apply IH].
    destruct (getAllFiles (Path.join [dir; file]) (Dir listing) acc); [reflexivity|].
    apply IH.
Qed.

Lemma file_at_nonempty (n : node) (segs : list string) :
  file_at n segs -> segs <> [].
Proof. intros H. destruct H; discriminate. Qed.

Lemma skipped_false (d : string) :
  skipped d = false ->
  d <> "node_modules" /\ JsString.startsWith d ".git" = false.
Proof.
  unfold skipped. rewrite orb_false_iff. intros [H1 H2].
  split; [now apply String.eqb_neq | exact H1].
Qed.

Lemma walk_entries_walked (dir : string) (es : entries) :
  Forall (fun e => forall d acc out,
              getAllFiles d (snd e) acc = inr out ->
              exists new, out = (acc ++ new)%list
                          /\ forall p, In p new -> walked d (snd e) p) es ->
  forall rest acc out,
    incl rest es ->
    walk_entries dir rest acc = inr out ->
    exists new, out = (acc ++ new)%list
                /\ forall p, In p new -> walked dir (Dir (inr es)) p.
Proof.
  intros Hch rest. induction rest as [|[file child] rest IH]; intros acc out Hin H.
  - simpl in H. injection H as <-. exists []. split; [now rewrite app_nil_r | intros p []].
  - assert (Hhere : In (file, child) es) by (apply Hin; now left).
    assert (Hrest : incl rest es) by (intros x Hx; apply Hin; now right).
    destruct child as [size content | listing | c]; cbn [walk_entries] in H.
    + destruct (IH _ _ Hrest H) as (new & -> & Hnew).
      exists (Path.join [dir; file] :: new). split.
      * now rewrite <- app_assoc.
      * intros p [<- | Hp]; [|now apply Hnew].
        exists [file]. repeat split.
        -- eapply file_here; exact Hhere.
        -- constructor.
    + destruct (skipped file) eqn:Hs; cbn [negb] in H; [now apply IH|].
      destruct (getAllFiles (Path.join [dir; file]) (Dir listing) acc)
        as [e | mid] eqn:Hw; [discriminate|].
      rewrite Forall_forall in Hch.
      destruct (Hch _ Hhere _ _ _ Hw) as (new1 & -> & Hnew1).
      destruct (IH _ _ Hrest H) as (new2 & -> & Hnew2).
      exists (new1 ++ new2)%list. split; [now rewrite app_assoc|].
      intros p Hp. apply in_app_or in Hp. destruct Hp as [Hp | Hp];
        [|now apply Hnew2].
      destruct (Hnew1 _ Hp) as (segs & Hat & -> & Hdirs). simpl in Hat.
      exists (file :: segs). repeat split.
      * eapply file_below; eassumption.
      * pose proof (file_at_nonempty _ _ Hat) as Hne.
        destruct segs as [|s segs']; [contradiction|].
        change (removelast (file :: s :: segs'))
          with (file :: removelast (s :: segs')).
        constructor; [now apply skipped_false | exact Hdirs].
    + discriminate.
Qed.

Lemma getAllFiles_walked (n : node) :
  forall dir acc out,
    getAllFiles dir n acc = inr out ->
    exists new, out = (acc ++ new)%list
                /\ forall p, In p new -> walked dir n p.
Proof.
  induction n as [size content | c | es IH | c] using node_rect_children;
    intros dir acc out H; try discriminate.
  rewrite getAllFiles_Dir in H.
  eapply walk_entries_walked; [exact IH | apply incl_refl | exact H].
Qed.

(** The walk does not look into a skipped directory. *)
Lemma getAllFiles_prune (n : node) :
  forall dir acc, getAllFiles dir (prune n) acc = getAllFiles dir n acc.
Proof.
  induction n as [size content | c | es IH | c] using node_rect_children;
    intros dir acc; try reflexivity.
  cbn [prune]. rewrite !getAllFiles_Dir.
  revert acc. induction es as [|[file child] rest IHes]; intros acc; [reflexivity|].
  inversion IH as [|? ? Hchild Hrest]; subst. cbn [snd] in Hchild.
  specialize (IHes Hrest).
  cbn [map walk_entries].
  destruct child as [size content | listing | c]; try reflexivity.
  - apply IHes.
  - destruct (skipped file) eqn:Hs; cbn [negb].
    + apply IHes.
    + assert (Hd : exists l', prune (Dir listing) = Dir l').
      { destruct listing; simpl; eauto. }
      destruct Hd as [l' Hd]. rewrite Hd. rewrite <- Hd, Hchild.
      destruct (getAllFiles (Path.join [dir; file]) (Dir listing) acc);
        [reflexivity | apply IHes].
Qed.

(** C4: whatever the root, every path that the walk returns is the path of
    a file reached from the root through directories none of which is
    named [node_modules] or has a name that begins with [.git]; such a
    directory is not entered, so that what it holds (files that would
    match, or entries that cannot be read) changes nothing. *)
Theorem walker_skips (root : string) (tree : node) :
  (forall fs p,
      getAllFiles root tree [] = inr fs -> In p fs ->
      exists segs,
        file_at tree segs /\ p = join_all root segs
        /\ Forall (fun d => d <> "node_modules"
                            /\ JsString.startsWith d ".git" = false)
                  (removelast segs))
  /\ (forall acc, getAllFiles root (prune tree) acc = getAllFiles root tree acc).
Proof.
  split.
  - intros fs p H Hp. destruct (getAllFiles_walked _ _ _ _ H) as (new & -> & Hnew).
    now apply Hnew.
  - intros acc. apply getAllFiles_prune.
Qed.

(** ** The orchestrator *)

(** One turn of the loop never throws, and does what [outcome] says. *)
Lemma process_outcome (filePatterns : list string) (r : RepoInfo) (s : state) :
  process filePatterns r s =
  (inr tt, {| results := (results s ++ fst (outcome filePatterns r))%list;
              console := (console s ++ snd (outcome filePatterns r))%list |}).
Proof.
  unfold process, outcome, cloneRepository, try_catch, bind, lift, log, logs,
    push, ret, throw, clone_path.
  cbn [results console].
  destruct (git_clone (url r) (Path.join [tempDir; owner r ++ "-" ++ name r]))
    as [e | root]; cbn [fst snd results console].
  - rewrite app_nil_r, <- !app_assoc. reflexivity.
  - destruct (getAllFiles _ root []) as [e | allFiles]; cbn [fst snd results console].
    + rewrite app_nil_r, <- !app_assoc. reflexivity.
    + destruct (findMatchingFiles allFiles filePatterns) as [e | matching];
        cbn [fst snd results console].
      * rewrite app_nil_r, <- !app_assoc. reflexivity.
      * destruct (analyzeRepository _ _ _ _) as [a evs].
        cbn [fst snd results console].
        rewrite <- !app_assoc. reflexivity.
Qed.

Lemma for_each_outcome (filePatterns : list string) (repos : list RepoInfo)
    (s : state) :
  for_each filePatterns repos s =
  (inr tt,
   {| results := (results s ++ flat_map (contribution filePatterns) repos)%list;
      console := (console s
                  ++ flat_map (fun r => snd (outcome filePatterns r)) repos)%list |}).
Proof.
  revert s. induction repos as [|r rest IH]; intros s.
  - simpl. rewrite !app_nil_r. now destruct s.
  - cbn [for_each]. unfold bind at 1. rewrite process_outcome, IH.
    cbn [results console flat_map]. unfold contribution.
    now rewrite <- !app_assoc.
Qed.

(** A run whose search succeeds. *)
Lemma analyzeRepositories_found (query : string) (filePatterns : list string)
    (limit : jsnum) (repos : list RepoInfo) (s : state) :
  gh_search query limit = inr repos ->
  analyzeRepositories query filePatterns limit s =
  (inr (results s ++ flat_map (contribution filePatterns) repos)%list,
   {| results := (results s ++ flat_map (contribution filePatterns) repos)%list;
      console := (console s
                  ++ LogSearching query :: LogFound (List.length repos)
                  :: flat_map (fun r => snd (outcome filePatterns r)) repos)%list |}).
Proof.
  intros H.
  unfold analyzeRepositories, searchRepositories, try_catch, bind, lift, log,
    get_results, throw.
  cbn [results console]. rewrite H. rewrite for_each_outcome.
  cbn [results console]. rewrite <- !app_assoc. reflexivity.
Qed.

(** A run whose search fails. *)
Lemma analyzeRepositories_search_failed (query : string)
    (filePatterns : list string) (limit : jsnum) (e : error) (s : state) :
  gh_search query limit = inl e ->
  analyzeRepositories query filePatterns limit s =
  (inl e,
   {| results := results s;
      console := (console s
                  ++ [LogSearching query; ErrSearching e; ErrAnalysisProcess e])%list |}).
Proof.
  intros H.
  unfold analyzeRepositories, searchRepositories, try_catch, bind, lift, log,
    get_results, throw.
  cbn [results console]. rewrite H. cbn [results console].
  rewrite <- !app_assoc. reflexivity.
Qed.

Lemma contribution_clone_failed (filePatterns : list string) (r : RepoInfo)
    (e : error) :
  git_clone (url r) (clone_path r) = inl e ->
  outcome filePatterns r
  = ([], [LogCloning r; ErrFailedToClone r e; ErrFailedToAnalyze r e]).
Proof. intros H. unfold outcome. now rewrite H. Qed.

Lemma contribution_walk_failed (filePatterns : list string) (r : RepoInfo)
    (root : node) (e : error) :
  git_clone (url r) (clone_path r) = inr root ->
  getAllFiles (clone_path r) root [] = inl e ->
  outcome filePatterns r = ([], [LogCloning r; ErrFailedToAnalyze r e]).
Proof. intros H1 H2. unfold outcome. now rewrite H1, H2. Qed.

Lemma contribution_match_failed (filePatterns : list string) (r : RepoInfo)
    (root : node) (allFiles : list string) (e : error) :
  git_clone (url r) (clone_path r) = inr root ->
  getAllFiles (clone_path r) root [] = inr allFiles ->
  findMatchingFiles allFiles filePatterns = inl e ->
  outcome filePatterns r = ([], [LogCloning r; ErrFailedToAnalyze r e]).
Proof. intros H1 H2 H3. unfold outcome. now rewrite H1, H2, H3. Qed.

Lemma contribution_analyzed (filePatterns : list string) (r : RepoInfo)
    (root : node) (allFiles matching : list string) :
  git_clone (url r) (clone_path r) = inr root ->
  getAllFiles (clone_path r) root [] = inr allFiles ->
  findMatchingFiles allFiles filePatterns = inr matching ->
  contribution filePatterns r =
  [{| repo := r;
      localPath := clone_path r;
      files := map (relative (clone_path r)) allFiles;
      matchingFiles := map (relative (clone_path r)) matching;
      analysis := fst (analyzeRepository (clone_path r) root r filePatterns) |}].
Proof.
  intros H1 H2 H3. unfold contribution, outcome. rewrite H1, H2, H3.
  now destruct (analyzeRepository _ _ _ _).
Qed.

(** Every repository of the list is tried: its clone is announced. *)
Lemma outcome_announces_clone (filePatterns : list string) (r : RepoInfo) :
  In (LogCloning r) (snd (outcome filePatterns r)).
Proof.
  unfold outcome.
  destruct (git_clone _ _); [now left|].
  destruct (getAllFiles _ _ _); [now left|].
  destruct (findMatchingFiles _ _); [now left|].
  destruct (analyzeRepository _ _ _ _). now left.
Qed.

(** C5: the run throws exactly when the search does.  When the search
    returns, the run returns: every repository of the list is tried in
    turn, and the results are the ones each repository contributes on its
    own, none when its clone, its walk or its match throws, one otherwise
    (a failure inside the probe is kept in that result). *)
Theorem repository_failures_do_not_abort (query : string)
    (filePatterns : list string) (limit : jsnum) (s : state) :
  (forall e, fst (analyzeRepositories query filePatterns limit s) = inl e
             <-> gh_search query limit = inl e)
  /\ (forall repos,
         gh_search query limit = inr repos ->
         fst (analyzeRepositories query filePatterns limit s)
         = inr (results s ++ flat_map (contribution filePatterns) repos)%list
         /\ results (snd (analyzeRepositories query filePatterns limit s))
            = (results s ++ flat_map (contribution filePatterns) repos)%list
         /\ forall r, In r repos ->
                      In (LogCloning r)
                         (console (snd (analyzeRepositories query filePatterns limit s))))
  /\ (forall r e,
         git_clone (url r) (clone_path r) = inl e ->
         contribution filePatterns r = [])
  /\ (forall r root e,
         git_clone (url r) (clone_path r) = inr root ->
         getAllFiles (clone_path r) root [] = inl e ->
         contribution filePatterns r = [])
  /\ (forall r root allFiles e,
         git_clone (url r) (clone_path r) = inr root ->
         getAllFiles (clone_path r) root [] = inr allFiles ->
         findMatchingFiles allFiles filePatterns = inl e ->
         contribution filePatterns r = [])
  /\ (forall r root allFiles matching,
         git_clone (url r) (clone_path r) = inr root ->
         getAllFiles (clone_path r) root [] = inr allFiles ->
         findMatchingFiles allFiles filePatterns = inr matching ->
         exists res, contribution filePatterns r = [res] /\ repo res = r).
Proof.
  repeat split.
  - intros H. destruct (gh_search query limit) as [e' | repos] eqn:Hs.
    + rewrite (analyzeRepositories_search_failed _ _ _ _ _ Hs) in H.
      cbn [fst] in H. congruence.
    + rewrite (analyzeRepositories_found _ _ _ _ _ Hs) in H. discriminate.
  - intros H. now rewrite (analyzeRepositories_search_failed _ _ _ _ _ H).
  - now rewrite (analyzeRepositories_found _ _ _ _ _ H).
  - now rewrite (analyzeRepositories_found _ _ _ _ _ H).
  - intros r Hr. rewrite (analyzeRepositories_found _ _ _ _ _ H). cbn [snd console].
    apply in_or_app. right. right. right.
    apply in_flat_map. exists r. split; [exact Hr | apply outcome_announces_clone].
  - intros r e H. unfold contribution.
    now rewrite (contribution_clone_failed _ _ _ H).
  - intros r root e H1 H2. unfold contribution.
    now rewrite (contribution_walk_failed _ _ _ _ H1 H2).
  - intros r root allFiles e H1 H2 H3. unfold contribution.
    now rewrite (contribution_match_failed _ _ _ _ _ H1 H2 H3).
  - intros r root allFiles matching H1 H2 H3.
    rewrite (contribution_analyzed _ _ _ _ _ H1 H2 H3). eexists. split; reflexivity.
Qed.

(** An exception inside the walk is not caught there: from a directory that
    cannot be listed, from an entry that [statSync] fails on, or from a
    directory further down, it leaves every enclosing call. *)
Lemma walk_errors_propagate :
  (forall dir c acc,
      getAllFiles dir (Dir (inl c)) acc = inl (SystemError c "scandir" dir))
  /\ (forall dir c acc,
         getAllFiles dir (NoStat c) acc = inl (SystemError c "scandir" dir))
  /\ (forall dir before file c after acc mid,
         walk_entries dir before acc = inr mid ->
         getAllFiles dir (Dir (inr (before ++ (file, NoStat c) :: after)%list)) acc
         = inl (SystemError c "stat" (Path.join [dir; file])))
  /\ (forall dir before file listing after acc mid e,
         walk_entries dir before acc = inr mid ->
         skipped file = false ->
         getAllFiles (Path.join [dir; file]) (Dir listing) mid = inl e ->
         getAllFiles dir (Dir (inr (before ++ (file, Dir listing) :: after)%list)) acc
         = inl e).
Proof.
  assert (Happ : forall dir before rest acc mid,
             walk_entries dir before acc = inr mid ->
             walk_entries dir (before ++ rest)%list acc = walk_entries dir rest mid).
  { intros dir before rest. induction before as [|[f ch] before IH]; intros acc mid H.
    - simpl in H. injection H as <-. reflexivity.
    - destruct ch as [sz ct | l | c]; cbn [walk_entries app] in *.
      + now apply IH.
      + destruct (negb (skipped f)); [|now apply IH].
        destruct (getAllFiles (Path.join [dir; f]) (Dir l) acc); [discriminate|].
        now apply IH.
      + discriminate. }
  repeat split; try reflexivity.
  - intros dir before file c after acc mid H.
    rewrite getAllFiles_Dir, (Happ dir before _ acc mid H). reflexivity.
  - intros dir before file listing after acc mid e H Hs He.
    rewrite getAllFiles_Dir, (Happ dir before _ acc mid H). cbn [walk_entries].
    now rewrite Hs, He.
Qed.

(** C6: an error of the file system during the walk of a clone leaves the
    walk, and the orchestrator catches it in the turn of that repository:
    the console gets the failure with the repository and the error, no
    result is appended, the turn ends normally and the run goes on to
    return. *)
Theorem walk_error_caught (filePatterns : list string) :
  (forall r root e s,
      git_clone (url r) (clone_path r) = inr root ->
      getAllFiles (clone_path r) root [] = inl e ->
      process filePatterns r s =
      (inr tt, {| results := results s;
                  console := (console s
                              ++ [LogCloning r; ErrFailedToAnalyze r e])%list |}))
  /\ (forall query limit repos r root e s,
         gh_search query limit = inr repos ->
         In r repos ->
         git_clone (url r) (clone_path r) = inr root ->
         getAllFiles (clone_path r) root [] = inl e ->
         (exists rs, fst (analyzeRepositories query filePatterns limit s) = inr rs)
         /\ In (ErrFailedToAnalyze r e)
               (console (snd (analyzeRepositories query filePatterns limit s)))
         /\ contribution filePatterns r = []).
Proof.
  split.
  - intros r root e s H1 H2.
    rewrite process_outcome, (contribution_walk_failed _ _ _ _ H1 H2).
    cbn [fst snd]. now rewrite app_nil_r.
  - intros query limit repos r root e s Hs Hr H1 H2.
    rewrite (analyzeRepositories_found _ _ _ _ _ Hs). cbn [fst snd console].
    repeat split.
    + eexists. reflexivity.
    + apply in_or_app. right. right. right.
      apply in_flat_map. exists r. split; [exact Hr|].
      rewrite (contribution_walk_failed _ _ _ _ H1 H2). right. now left.
    + unfold contribution. now rewrite (contribution_walk_failed _ _ _ _ H1 H2).
Qed.

(** ** Reported paths *)

Lemma wf_node_entry (es : entries) (file : string) (child : node) :
  wf_node (Dir (inr es)) = true -> In (file, child) es ->
  Path.plain file = true /\ wf_node child = true.
Proof.
  intros Hwf Hin. cbn [wf_node] in Hwf. rewrite forallb_forall in Hwf.
  specialize (Hwf _ Hin). cbn beta iota in Hwf. now apply andb_true_iff in Hwf.
Qed.

(** Below a clean directory, in a tree of plain names, [path.join] only
    adds a slash and the name. *)
Lemma join_all_clean (n : node) (segs : list string) :
  file_at n segs ->
  forall dir, Path.clean dir -> wf_node n = true ->
  join_all dir segs = dir ++ "/" ++ JsString.join "/" segs
  /\ Forall (fun s => Path.plain s = true) segs.
Proof.
  induction 1 as [es file size content Hin | es file listing segs Hin Hat IH];
    intros dir Hdir Hwf.
  - destruct (wf_node_entry _ _ _ Hwf Hin) as [Hp _].
    destruct (join_clean _ _ Hdir Hp) as [Hj _].
    split; [exact Hj | now constructor].
  - destruct (wf_node_entry _ _ _ Hwf Hin) as [Hp Hc].
    destruct (join_clean _ _ Hdir Hp) as [Hj Hclean].
    cbn [join_all]. rewrite Hj.
    destruct (IH _ Hclean Hc) as [-> Hall].
    split; [|now constructor].
    pose proof (file_at_nonempty _ _ Hat) as Hne.
    destruct segs as [|x rest]; [contradiction|].
    change (JsString.join "/" (file :: x :: rest))
      with (file ++ "/" ++ JsString.join "/" (x :: rest)).
    now rewrite !append_assoc.
Qed.

(** Below a clean root, in a tree of plain names, a walked path is the root,
    a slash, and the names of directories that are not skipped and of the
    file, with slashes between. *)
Lemma walked_below (root : string) (tree : node) (fs : list string) (p : string) :
  Path.clean root -> wf_node tree = true ->
  getAllFiles root tree [] = inr fs -> In p fs ->
  exists segs,
    file_at tree segs
    /\ p = root ++ "/" ++ JsString.join "/" segs
    /\ Forall (fun s => Path.plain s = true) segs
    /\ Forall (fun d => d <> "node_modules" /\ JsString.startsWith d ".git" = false)
              (removelast segs).
Proof.
  intros Hroot Hwf Hwalk Hp.
  destruct (getAllFiles_walked _ _ _ _ Hwalk) as (new & Hnew & Hwalked).
  cbn [app] in Hnew. subst new.
  destruct (Hwalked _ Hp) as (segs & Hat & -> & Hdirs).
  destruct (join_all_clean _ _ Hat _ Hroot Hwf) as [-> Hsegs].
  exists segs. auto.
Qed.

Lemma relative_below (localPath rel : string) :
  relative localPath (localPath ++ "/" ++ rel) = rel.
Proof.
  unfold relative. rewrite replace_first_prefix. reflexivity.
Qed.

Lemma startsWith_clean (dir p : string) :
  Path.clean dir -> JsString.startsWith p "/" = false ->
  JsString.startsWith p dir = false.
Proof.
  intros (segs & _ & _ & ->) H. unfold Path.rooted.
  destruct p as [|c p]; [reflexivity|].
  cbn [JsString.startsWith append] in *.
  destruct (Ascii.eqb "/" c); [discriminate | reflexivity].
Qed.

Lemma join_plain_relative (segs : list string) :
  segs <> [] -> Forall (fun s => Path.plain s = true) segs ->
  JsString.startsWith (JsString.join "/" segs) "/" = false.
Proof.
  intros Hne Hall. destruct segs as [|x rest]; [contradiction|].
  inversion Hall as [|? ? Hx _]; subst.
  pose proof (plain_not_slash_start _ Hx) as Hs.
  apply plain_spec in Hx. destruct Hx as [Hx _].
  destruct x as [|c x]; [contradiction|].
  destruct rest; cbn [JsString.join append JsString.startsWith] in *; exact Hs.
Qed.

(** The filter keeps files of the list it is given. *)
Lemma findMatchingFiles_incl (fs patterns kept : list string) :
  findMatchingFiles fs patterns = inr kept -> incl kept fs.
Proof.
  revert kept. induction fs as [|f fs IH]; intros kept H.
  - simpl in H. injection H as <-. apply incl_refl.
  - cbn [findMatchingFiles] in H.
    destruct (matches f patterns) as [e | keep]; [discriminate|].
    destruct (findMatchingFiles fs patterns) as [e | kept']; [discriminate|].
    injection H as <-. specialize (IH _ eq_refl).
    destruct keep.
    + intros x [<- | Hx]; [now left | right; now apply IH].
    + intros x Hx. right. now apply IH.
Qed.

(** Where a contributed result comes from. *)
Lemma contribution_inv (filePatterns : list string) (r : RepoInfo)
    (res : AnalysisResult) :
  In res (contribution filePatterns r) ->
  exists root allFiles matching,
    git_clone (url r) (clone_path r) = inr root
    /\ getAllFiles (clone_path r) root [] = inr allFiles
    /\ findMatchingFiles allFiles filePatterns = inr matching
    /\ res = {| repo := r;
                localPath := clone_path r;
                files := map (relative (clone_path r)) allFiles;
                matchingFiles := map (relative (clone_path r)) matching;
                analysis := fst (analyzeRepository (clone_path r) root r
                                                   filePatterns) |}.
Proof.
  intros H.
  destruct (git_clone (url r) (clone_path r)) as [e | root] eqn:H1.
  { unfold contribution in H. rewrite (contribution_clone_failed _ _ _ H1) in H.
    destruct H. }
  destruct (getAllFiles (clone_path r) root []) as [e | allFiles] eqn:H2.
  { unfold contribution in H. rewrite (contribution_walk_failed _ _ _ _ H1 H2) in H.
    destruct H. }
  destruct (findMatchingFiles allFiles filePatterns) as [e | matching] eqn:H3.
  { unfold contribution in H. rewrite (contribution_match_failed _ _ _ _ _ H1 H2 H3) in H.
    destruct H. }
  rewrite (contribution_analyzed _ _ _ _ _ H1 H2 H3) in H.
  destruct H as [<- | []]. exists root, allFiles, matching. auto.
Qed.

(** What a run appends to the results. *)
Lemma run_appends (query : string) (filePatterns : list string)
    (limit : jsnum) (s : state) :
  exists appended,
    results (snd (analyzeRepositories query filePatterns limit s))
    = (results s ++ appended)%list
    /\ forall res, In res appended ->
                   exists r, In res (contribution filePatterns r)
                             /\ (exists repos, gh_search query limit = inr repos
                                               /\ In r repos).
Proof.
  destruct (gh_search query limit) as [e | repos] eqn:Hs.
  - exists []. rewrite (analyzeRepositories_search_failed _ _ _ _ _ Hs).
    cbn [snd results]. split; [now rewrite app_nil_r | intros res []].
  - exists (flat_map (contribution filePatterns) repos).
    rewrite (analyzeRepositories_found _ _ _ _ _ Hs). cbn [snd results].
    split; [reflexivity|]. intros res Hres.
    apply in_flat_map in Hres. destruct Hres as (r & Hr & Hin).
    exists r. split; [exact Hin | exists repos; auto].
Qed.

(** C1: in every result that a run appends, the matching files are among
    the files, and the clone that they come from is there; and when the
    temporary directory is a normalized absolute
    path, the repository's owner and name make a plain directory name and
    the clone's tree lists plain names, every path of both lists is relative
    to the clone: it does not start with the clone's path, and leads from
    the clone's root to one of its files. *)
Theorem results_relative (query : string) (filePatterns : list string)
    (limit : jsnum) (s : state) :
  exists appended,
    results (snd (analyzeRepositories query filePatterns limit s))
    = (results s ++ appended)%list
    /\ Forall
         (fun res =>
            incl (matchingFiles res) (files res)
            /\ (exists root, git_clone (url (repo res)) (localPath res) = inr root)
            /\ (Path.clean tempDir ->
                Path.plain (owner (repo res) ++ "-" ++ name (repo res)) = true ->
                forall root,
                  git_clone (url (repo res)) (localPath res) = inr root ->
                  wf_node root = true ->
                  Forall (relative_to root (localPath res)) (files res)
                  /\ Forall (relative_to root (localPath res)) (matchingFiles res)))
         appended.
Proof.
  destruct (run_appends query filePatterns limit s) as (appended & Happ & Hall).
  exists appended. split; [exact Happ|].
  apply Forall_forall. intros res Hres.
  destruct (Hall _ Hres) as (r & Hin & _).
  destruct (contribution_inv _ _ _ Hin) as (root & allFiles & matching & H1 & H2 & H3 & ->).
  cbn [matchingFiles files repo localPath].
  pose proof (findMatchingFiles_incl _ _ _ H3) as Hincl.
  assert (Hsub : incl (map (relative (clone_path r)) matching)
                      (map (relative (clone_path r)) allFiles)).
  { intros p Hp. apply in_map_iff in Hp. destruct Hp as (f & <- & Hf).
    apply in_map. now apply Hincl. }
  split; [exact Hsub|].
  split; [now exists root|].
  intros Htemp Hplain root' Hclone Hwf.
  rewrite H1 in Hclone. injection Hclone as <-.
  destruct (join_clean _ _ Htemp Hplain) as [Hpath Hclean].
  assert (Hfiles : Forall (relative_to root (clone_path r))
                          (map (relative (clone_path r)) allFiles)).
  { apply Forall_forall. intros p Hp.
    apply in_map_iff in Hp. destruct Hp as (f & <- & Hf).
    destruct (getAllFiles_walked _ _ _ _ H2) as (new & Hnew & Hwalked).
    cbn [app] in Hnew. subst new.
    destruct (Hwalked _ Hf) as (segs & Hat & -> & _).
    unfold clone_path in *. rewrite Hpath in *.
    destruct (join_all_clean _ _ Hat _ Hclean Hwf) as [-> Hsegs].
    rewrite relative_below.
    pose proof (join_plain_relative _ (file_at_nonempty _ _ Hat) Hsegs) as Hrel.
    repeat split.
    - exact Hrel.
    - now apply startsWith_clean.
    - exists segs. auto. }
  split; [exact Hfiles|].
  rewrite Forall_forall in *. intros p Hp. apply Hfiles. now apply Hsub.
Qed.

(** ** The prober and the reporter *)

(** The prober counts the files of its own walk, and keeps the count
    whatever happens later. *)
Lemma analyzeRepository_totalFiles (repoPath : string) (root : node)
    (r : RepoInfo) (filePatterns allFiles : list string) :
  getAllFiles repoPath root [] = inr allFiles ->
  totalFiles (fst (analyzeRepository repoPath root r filePatterns))
  = List.length allFiles.
Proof.
  intros H. unfold analyzeRepository. rewrite H.
  destruct (findMatchingFiles allFiles filePatterns); [reflexivity|].
  destruct (special_files repoPath root _); [reflexivity|].
  destruct (readdirSync repoPath root); [reflexivity|].
  destruct (top_level repoPath _ []) as [o [stopped|]]; reflexivity.
Qed.

(** When the walk of the prober fails, the counts keep their initial
    values. *)
Lemma analyzeRepository_walk_failed (repoPath : string) (root : node)
    (r : RepoInfo) (filePatterns : list string) (e : error) :
  getAllFiles repoPath root [] = inl e ->
  analyzeRepository repoPath root r filePatterns
  = (failed initial_analysis e, [ErrAnalyzing r e]).
Proof.
  intros H. unfold analyzeRepository. now rewrite H.
Qed.

Lemma message_truthy (e : error) : JsString.truthy (message e) = true.
Proof.
  destruct e as [c syscall path | source detail | command detail];
    [destruct c|..]; reflexivity.
Qed.

(** The error field of an analysis is the message of the exception that
    the prober caught. *)
Lemma analyzeRepository_error (repoPath : string) (root : node)
    (r : RepoInfo) (filePatterns : list string) (m : string) :
  error_field (fst (analyzeRepository repoPath root r filePatterns)) = Some m ->
  exists e, m = message e
            /\ snd (analyzeRepository repoPath root r filePatterns)
               = [ErrAnalyzing r e].
Proof.
  unfold analyzeRepository.
  destruct (getAllFiles repoPath root []) as [e | allFiles].
  { cbn. intros H. injection H as <-. eauto. }
  destruct (findMatchingFiles allFiles filePatterns) as [e | matching].
  { cbn. intros H. injection H as <-. eauto. }
  destruct (special_files repoPath root matching) as [e | special].
  { cbn. intros H. injection H as <-. eauto. }
  destruct (readdirSync repoPath root) as [e | items].
  { cbn. intros H. injection H as <-. eauto. }
  destruct (top_level repoPath items []) as [o [e|]].
  { cbn. intros H. injection H as <-. eauto. }
  cbn. discriminate.
Qed.

Lemma report_entries_app (index : nat) (before after : list AnalysisResult) :
  report_entries index (before ++ after)%list
  = report_entries index before
    ++ report_entries (index + List.length before) after.
Proof.
  revert index. induction before as [|r before IH]; intros index.
  - simpl. now rewrite Nat.add_0_r.
  - cbn [report_entries app List.length]. rewrite IH, append_assoc.
    now rewrite Nat.add_succ_r.
Qed.

(** C9: an entry whose analysis carries an error (the message of a caught
    exception, which is never empty) is rendered as its heading and the
    error line, with no file counts and no file types; the report is still
    produced, with the entries before and after it as they are. *)
Theorem error_entry_rendering :
  (forall index res m,
      error_field (analysis res) = Some m ->
      JsString.truthy m = true ->
      report_entry index res
      = entry_heading index res ++ "**Error:** " ++ m ++ nl ++ nl)
  /\ (forall repoPath root r filePatterns m,
         error_field (fst (analyzeRepository repoPath root r filePatterns)) = Some m ->
         JsString.truthy m = true)
  /\ (forall now before res after m,
         error_field (analysis res) = Some m ->
         JsString.truthy m = true ->
         generateReport now (before ++ res :: after)%list
         = "# GitHub Repository Analysis Report" ++ nl ++ nl
           ++ "Generated on: " ++ now ++ nl
           ++ "Total repositories analyzed: "
           ++ JsString.of_nat (List.length (before ++ res :: after)%list) ++ nl ++ nl
           ++ report_entries 0 before
           ++ (entry_heading (List.length before) res
               ++ "**Error:** " ++ m ++ nl ++ nl)
           ++ report_entries (S (List.length before)) after).
Proof.
  assert (Hentry : forall index res m,
             error_field (analysis res) = Some m ->
             JsString.truthy m = true ->
             report_entry index res
             = entry_heading index res ++ "**Error:** " ++ m ++ nl ++ nl).
  { intros index res m H T. unfold report_entry, error_shown. now rewrite H, T. }
  split; [exact Hentry|]. split.
  - intros repoPath root r filePatterns m H.
    destruct (analyzeRepository_error _ _ _ _ _ H) as (e & -> & _).
    apply message_truthy.
  - intros now before res after m H T. unfold generateReport.
    rewrite report_entries_app. cbn [report_entries Nat.add].
    rewrite (Hentry _ _ _ H T). reflexivity.
Qed.

(** C10: in every result that a run appends, [totalFiles] is the length of
    [files]: the prober walks the same clone as the orchestrator did, and
    counts the same files (also when the probe fails after its walk). *)
Theorem totalFiles_is_files_length (query : string)
    (filePatterns : list string) (limit : jsnum) (s : state) :
  exists appended,
    results (snd (analyzeRepositories query filePatterns limit s))
    = (results s ++ appended)%list
    /\ Forall (fun res =>
                 totalFiles (analysis res) = List.length (files res))
              appended.
Proof.
  destruct (run_appends query filePatterns limit s) as (appended & Happ & Hall).
  exists appended. split; [exact Happ|].
  apply Forall_forall. intros res Hres.
  destruct (Hall _ Hres) as (r & Hin & _).
  destruct (contribution_inv _ _ _ Hin)
    as (root & allFiles & matching & H1 & H2 & H3 & ->).
  cbn [analysis files].
  rewrite (analyzeRepository_totalFiles _ _ _ _ _ H2).
  now rewrite length_map.
Qed.

(* ================================================================ *)
(** * Part II, continued. Further properties of the code *)
(* ================================================================ *)

(** ** More on the tree walker *)

Lemma walk_entries_acc (dir : string) (es : entries) :
  Forall (fun e => forall d acc,
              getAllFiles d (snd e) acc = prepend acc (getAllFiles d (snd e) [])) es ->
  forall acc, walk_entries dir es acc = prepend acc (walk_entries dir es []).
Proof.
  induction es as [|[file child] rest IH]; intros Hch acc.
  - simpl. now rewrite app_nil_r.
  - inversion Hch as [|? ? Hchild Hrest]; subst. cbn [snd] in Hchild.
    specialize (IH Hrest).
    destruct child as [size content | listing | c]; cbn [walk_entries].
    + rewrite (IH (acc ++ [Path.join [dir; file]])%list).
      rewrite (IH ([] ++ [Path.join [dir; file]])%list).
      destruct (walk_entries dir rest []); simpl; [reflexivity|].
      now rewrite <- app_assoc.
    + destruct (negb (skipped file)); [|apply IH].
      rewrite (Hchild (Path.join [dir; file]) acc).
      destruct (getAllFiles (Path.join [dir; file]) (Dir listing) []) as [e | l];
        [reflexivity|].
      cbn [prepend]. rewrite (IH (acc ++ l)%list), (IH l).
      destruct (walk_entries dir rest []); simpl; [reflexivity|].
      now rewrite <- app_assoc.
    + reflexivity.
Qed.

(** X1: a walk that is handed the files found so far returns them followed
    by what the same walk returns from an empty list, and fails when that one
    fails: the list shared by the recursive calls only ever grows at its
    end. *)
Theorem getAllFiles_accumulates (n : node) :
  forall dir fileList,
    getAllFiles dir n fileList = prepend fileList (getAllFiles dir n []).
Proof.
  induction n as [size content | c | es IH | c] using node_rect_children;
    intros dir fileList; try reflexivity.
  rewrite !getAllFiles_Dir. now apply walk_entries_acc.
Qed.

Lemma removelast_cons (x : string) (l : list string) :
  l <> [] -> removelast (x :: l) = x :: removelast l.
Proof. destruct l; [contradiction | reflexivity]. Qed.

Lemma walk_entries_complete (dir : string) (es : entries) :
  forall acc out,
    walk_entries dir es acc = inr out ->
    incl acc out
    /\ (forall file size content,
           In (file, File size content) es -> In (Path.join [dir; file]) out)
    /\ (forall file listing,
           In (file, Dir listing) es -> skipped file = false ->
           exists acc' out',
             getAllFiles (Path.join [dir; file]) (Dir listing) acc' = inr out'
             /\ incl out' out).
Proof.
  induction es as [|[file child] rest IH]; intros acc out H.
  - simpl in H. injection H as <-.
    split; [apply incl_refl|]. split; [intros ? ? ? [] | intros ? ? []].
  - destruct child as [size content | listing | c]; cbn [walk_entries] in H.
    + destruct (IH _ _ H) as (Hacc & Hfiles & Hdirs).
      split; [intros x Hx; apply Hacc, in_or_app; now left|]. split.
      * intros f sz ct [E | Hin]; [|now apply (Hfiles f sz ct)].
        injection E as <- _ _. apply Hacc, in_or_app. right. now left.
      * intros f l [E | Hin] Hs; [discriminate | now apply Hdirs].
    + destruct (skipped file) eqn:Hskip; cbn [negb] in H.
      * destruct (IH _ _ H) as (Hacc & Hfiles & Hdirs).
        split; [exact Hacc|]. split.
        -- intros f sz ct [E | Hin]; [discriminate | now apply (Hfiles f sz ct)].
        -- intros f l [E | Hin] Hs; [|now apply Hdirs].
           injection E as <- _. congruence.
      * destruct (getAllFiles (Path.join [dir; file]) (Dir listing) acc)
          as [e | mid] eqn:Hw; [discriminate|].
        destruct (IH _ _ H) as (Hmid & Hfiles & Hdirs).
        destruct (getAllFiles_walked _ _ _ _ Hw) as (new & -> & _).
        split; [intros x Hx; apply Hmid, in_or_app; now left|]. split.
        -- intros f sz ct [E | Hin]; [discriminate | now apply (Hfiles f sz ct)].
        -- intros f l [E | Hin] Hs; [|now apply Hdirs].
           injection E as <- <-. exists acc, (acc ++ new)%list. auto.
    + discriminate.
Qed.

Lemma getAllFiles_complete (n : node) (segs : list string) :
  file_at n segs ->
  Forall (fun d => skipped d = false) (removelast segs) ->
  forall dir acc out,
    getAllFiles dir n acc = inr out -> In (join_all dir segs) out.
Proof.
  induction 1 as [es file size content Hin | es file listing segs Hin Hat IH];
    intros Hdirs dir acc out H; rewrite getAllFiles_Dir in H.
  - destruct (walk_entries_complete _ _ _ _ H) as (_ & Hfiles & _).
    now apply (Hfiles file size content).
  - rewrite removelast_cons in Hdirs by (eapply file_at_nonempty; exact Hat).
    inversion Hdirs as [|? ? Hs Hrest]; subst.
    destruct (walk_entries_complete _ _ _ _ H) as (_ & _ & Hsub).
    destruct (Hsub file listing Hin Hs) as (acc' & out' & Hw & Hincl).
    cbn [join_all]. apply Hincl. now apply (IH Hrest _ acc' out').
Qed.

(** X2: a walk that returns leaves no file out: every file of the tree that
    lies under directories none of which is skipped is in the list, under the
    path that [path.join] builds for it from the root. *)
Theorem walker_complete (root : string) (tree : node) (fs segs : list string) :
  getAllFiles root tree [] = inr fs ->
  file_at tree segs ->
  Forall (fun d => skipped d = false) (removelast segs) ->
  In (join_all root segs) fs.
Proof.
  intros H Hat Hdirs. exact (getAllFiles_complete _ _ Hat Hdirs _ _ _ H).
Qed.

Lemma walk_entries_walkable (dir : string) (es : entries) :
  Forall (fun e => forall d acc,
              (exists out, getAllFiles d (snd e) acc = inr out)
              <-> walkable (snd e) = true) es ->
  forall acc,
    (exists out, walk_entries dir es acc = inr out)
    <-> walkable (Dir (inr es)) = true.
Proof.
  induction es as [|[file child] rest IH]; intros Hch acc.
  - simpl. split; [reflexivity | intros _; now exists acc].
  - inversion Hch as [|? ? Hchild Hrest]; subst. cbn [snd] in Hchild.
    specialize (IH Hrest). cbn [walkable forallb] in *.
    destruct child as [size content | listing | c]; cbn [walk_entries].
    + rewrite andb_true_l. apply IH.
    + rewrite andb_true_iff, orb_true_iff.
      destruct (skipped file) eqn:Hs; cbn [negb].
      * rewrite IH. split; [intros H; split; [now left | exact H] | now intros [_ H]].
      * destruct (getAllFiles (Path.join [dir; file]) (Dir listing) acc)
          as [e | mid] eqn:Hw.
        -- split; [intros [out H]; discriminate|].
           intros [[H | H] _]; [discriminate|].
           apply (Hchild (Path.join [dir; file]) acc) in H.
           destruct H as [out H]. congruence.
        -- rewrite IH. split.
           ++ intros H. split; [right|exact H].
              apply (Hchild (Path.join [dir; file]) acc). now exists mid.
           ++ now intros [_ H].
    + split; [intros [out H]; discriminate | discriminate].
Qed.

(** X3: the walk returns exactly on the trees that are walkable: it throws as
    soon as, outside the skipped directories, a directory cannot be listed or
    an entry cannot be inspected, and for no other reason. *)
Theorem walker_returns_iff_walkable (root : string) (tree : node) :
  (exists fs, getAllFiles root tree [] = inr fs) <-> walkable tree = true.
Proof.
  revert root. generalize (@nil string).
  induction tree as [size content | c | es IH | c] using node_rect_children;
    intros acc root; try (split; [intros [fs H]; discriminate | discriminate]).
  rewrite getAllFiles_Dir. apply walk_entries_walkable.
  eapply Forall_impl; [|exact IH]. intros e He d acc'. apply He.
Qed.

(** ** More on the pattern matcher *)

Lemma toLowerCase_app (a b : string) :
  JsString.toLowerCase (a ++ b)
  = JsString.toLowerCase a ++ JsString.toLowerCase b.
Proof.
  induction a as [|c a IH]; [reflexivity|]. simpl. now rewrite IH.
Qed.

Lemma includes_occurs (s p : string) :
  JsString.includes (JsString.toLowerCase s) (JsString.toLowerCase p) = true
  <-> occurs_ignoring_case p s.
Proof. apply includes_spec. Qed.


Lemma join_holds_segment (segs : list string) (seg : string) :
  In seg segs ->
  exists before after, JsString.join "/" segs = before ++ seg ++ after.
Proof.
  induction segs as [|x rest IH]; intros Hin; [destruct Hin|].
  destruct rest as [|y rest'].
  - destruct Hin as [<- | []]. exists "", "". cbn. now rewrite append_empty_r.
  - change (JsString.join "/" (x :: y :: rest'))
      with (x ++ "/" ++ JsString.join "/" (y :: rest')).
    destruct Hin as [<- | Hin].
    + now exists "", ("/" ++ JsString.join "/" (y :: rest')).
    + destruct (IH Hin) as (before & after & ->).
      exists (x ++ "/" ++ before), after. now rewrite !append_assoc.
Qed.

Lemma occurs_within (p s before after : string) :
  occurs_ignoring_case p s -> occurs_ignoring_case p (before ++ s ++ after).
Proof.
  intros (b & a & E). unfold occurs_ignoring_case.
  rewrite !toLowerCase_app, E.
  exists (JsString.toLowerCase before ++ b), (a ++ JsString.toLowerCase after).
  now rewrite !append_assoc.
Qed.

Lemma some_pattern_head_true (b r pattern : string) (rest : list string) :
  pattern_matches b r pattern = inr true ->
  some_pattern b r (pattern :: rest) = inr true.
Proof. intros H. cbn [some_pattern]. now rewrite H. Qed.

(** X5: a pattern without a star matches every file one of whose last three
    path segments holds it, the case of letters apart, whatever patterns
    follow it.  The segments are those of the absolute path, so for a file at
    the top of a clone they are the temporary directory, the clone's own
    directory and the file. *)
Theorem literal_pattern_in_segment (segs : list string) (seg pattern : string)
    (rest : list string) :
  segs <> [] ->
  Forall (fun n => JsString.includes n "/" = false) segs ->
  In seg (JsString.slice_last 3 segs) ->
  JsString.includes pattern "*" = false ->
  occurs_ignoring_case pattern seg ->
  matches (JsString.join "/" segs) (pattern :: rest) = inr true.
Proof.
  intros Hne Hall Hin Hstar Hocc.
  unfold matches. apply some_pattern_head_true.
  unfold pattern_matches. rewrite Hstar. rewrite relativePath_join by assumption.
  destruct (join_holds_segment _ _ Hin) as (before & after & ->).
  apply (occurs_within _ _ before after), includes_occurs in Hocc.
  rewrite Hocc. now rewrite orb_true_r.
Qed.

Lemma some_pattern_app (b r : string) (ps qs : list string) :
  some_pattern b r (ps ++ qs)%list =
  match some_pattern b r ps with
  | inr false => some_pattern b r qs
  | decided => decided
  end.
Proof.
  induction ps as [|p ps IH]; [reflexivity|].
  cbn [some_pattern app]. destruct (pattern_matches b r p) as [e | [|]];
    [reflexivity | reflexivity | exact IH].
Qed.

(** X6: the patterns are tried in order and the first match decides: a file
    that matches one of the patterns [ps] is kept whatever follows them, a
    malformed expression included; one that matches none of them is judged by
    the patterns that follow; and an exception among [ps] hides what
    follows. *)
Theorem patterns_first_match_decides (file : string) (ps qs : list string) :
  (matches file ps = inr true -> matches file (ps ++ qs)%list = inr true)
  /\ (matches file ps = inr false ->
      matches file (ps ++ qs)%list = matches file qs)
  /\ (forall e, matches file ps = inl e -> matches file (ps ++ qs)%list = inl e).
Proof.
  unfold matches. rewrite some_pattern_app.
  repeat split; intros; now rewrite H.
Qed.

Lemma replace_stars_host_syntax (s : string) :
  has_regex_special s = false ->
  RegExp.has_host_syntax (JsString.replace_stars s) = false.
Proof.
  induction s as [|c s IH]; [reflexivity|].
  cbn [has_regex_special JsString.replace_stars]. unfold regex_special.
  rewrite !orb_false_iff. intros [[[Hh _] _] Hs].
  destruct (Ascii.eqb c "*") eqn:Hc.
  - cbn [RegExp.has_host_syntax]. rewrite (IH Hs). reflexivity.
  - cbn [RegExp.has_host_syntax]. now rewrite Hh, (IH Hs).
Qed.

Lemma parse_from_replace_stars (s : string) :
  has_regex_special s = false ->
  forall p acc,
    exists ts, RegExp.parse_from p acc (JsString.replace_stars s) = Some ts.
Proof.
  induction s as [|c s IH]; intros H p acc.
  - simpl. eauto.
  - cbn [has_regex_special] in H. unfold regex_special in H.
    rewrite !orb_false_iff in H. destruct H as [[[_ Hplus] Hopt] Hs].
    cbn [JsString.replace_stars]. destruct (Ascii.eqb c "*") eqn:Hc.
    + unfold JsString.dot. cbn [RegExp.parse_from].
      change (RegExp.quantifier_of ".") with (@None RegExp.quantifier).
      change (RegExp.quantifier_of "*") with (Some RegExp.ZeroOrMore).
      cbv iota beta. apply (IH Hs).
    + cbn [RegExp.parse_from]. unfold RegExp.quantifier_of.
      rewrite Hc, Hplus, Hopt. apply (IH Hs).
Qed.

Lemma pattern_matches_returns (b r pattern : string) :
  JsString.includes pattern "*" && has_regex_special pattern = false ->
  exists verdict, pattern_matches b r pattern = inr verdict.
Proof.
  intros H. unfold pattern_matches.
  destruct (JsString.includes pattern "*"); [|eauto]. cbn [andb] in H.
  unfold RegExp.compile. rewrite (replace_stars_host_syntax _ H).
  unfold RegExp.parse.
  destruct (parse_from_replace_stars _ H RegExp.NoAtom []) as [ts ->].
  cbn [option_map]. eauto.
Qed.

Lemma some_pattern_returns (b r : string) (patterns : list string) :
  Forall (fun p => JsString.includes p "*" && has_regex_special p = false)
         patterns ->
  exists verdict, some_pattern b r patterns = inr verdict.
Proof.
  induction 1 as [|p ps Hp Hps IH]; [simpl; eauto|].
  cbn [some_pattern]. destruct (pattern_matches_returns b r p Hp) as [[|] ->];
    [eauto | exact IH].
Qed.

(** X7: the matcher throws only on a pattern that has both a star and,
    beside stars and dots, another syntax character of regular expressions:
    when no pattern is of that kind, [findMatchingFiles] returns for every
    list of files, whatever the host's engine. *)
Theorem findMatchingFiles_returns (fs patterns : list string) :
  Forall (fun p => JsString.includes p "*" && has_regex_special p = false)
         patterns ->
  exists kept, findMatchingFiles fs patterns = inr kept.
Proof.
  intros H. induction fs as [|f fs [kept IH]]; [simpl; eauto|].
  cbn [findMatchingFiles]. unfold matches at 1.
  destruct (some_pattern_returns (Path.basename f) (relativePath f) _ H) as [v ->].
  rewrite IH. eauto.
Qed.

Lemma drop_trailing_empty_last (segs : list string) :
  last segs "" <> "" -> Path.drop_trailing_empty segs = segs.
Proof.
  induction segs as [|x rest IH]; intros H; [reflexivity|].
  destruct rest as [|y rest'].
  - cbn in *. apply String.eqb_neq in H. now rewrite H.
  - change (last (x :: y :: rest') "") with (last (y :: rest') "") in H.
    cbn [Path.drop_trailing_empty] in *. rewrite (IH H). reflexivity.
Qed.

Lemma basename_join (segs : list string) :
  segs <> [] ->
  Forall (fun n => JsString.includes n "/" = false) segs ->
  last segs "" <> "" ->
  Path.basename (JsString.join "/" segs) = last segs "".
Proof.
  intros Hne Hall Hlast. unfold Path.basename.
  rewrite split_join by assumption. now rewrite drop_trailing_empty_last.
Qed.

Lemma join_ends_with_last (segs : list string) :
  segs <> [] -> exists before, JsString.join "/" segs = before ++ last segs "".
Proof.
  induction segs as [|x rest IH]; intros Hne; [contradiction|].
  destruct rest as [|y rest'].
  - now exists "".
  - destruct IH as [before E]; [discriminate|].
    change (JsString.join "/" (x :: y :: rest'))
      with (x ++ "/" ++ JsString.join "/" (y :: rest')).
    change (last (x :: y :: rest') "") with (last (y :: rest') "").
    rewrite E. exists (x ++ "/" ++ before). now rewrite !append_assoc.
Qed.

Lemma last_skipn (k : nat) (l : list string) :
  k < List.length l -> last (skipn k l) "" = last l "".
Proof.
  revert l. induction k as [|k IH]; intros l H; [reflexivity|].
  destruct l as [|x l]; [simpl in H; lia|].
  cbn [skipn]. rewrite IH by (simpl in H; lia).
  destruct l; [simpl in H; lia | reflexivity].
Qed.

Lemma slice_last_last (segs : list string) :
  segs <> [] ->
  JsString.slice_last 3 segs <> []
  /\ last (JsString.slice_last 3 segs) "" = last segs "".
Proof.
  intros Hne. unfold JsString.slice_last.
  assert (Hlen : List.length segs - 3 < List.length segs).
  { destruct segs; [contradiction | simpl; lia]. }
  split; [|now apply last_skipn].
  intros E. apply (f_equal (@List.length string)) in E.
  rewrite length_skipn in E. simpl in E. lia.
Qed.

(** The fragment of a path that ends on a name ends on the base name. *)
Lemma relativePath_ends_with_basename (segs : list string) :
  segs <> [] ->
  Forall (fun n => JsString.includes n "/" = false) segs ->
  last segs "" <> "" ->
  exists before,
    relativePath (JsString.join "/" segs)
    = before ++ Path.basename (JsString.join "/" segs).
Proof.
  intros Hne Hall Hlast.
  rewrite relativePath_join, basename_join by assumption.
  destruct (slice_last_last _ Hne) as [Hne' <-].
  now apply join_ends_with_last.
Qed.

(** X8: for a path that ends on a name, the test on the base name never
    decides: a pattern without a star matches exactly when the fragment of
    the last three segments holds it, and a pattern with a star that [RegExp]
    compiles itself (no anchor can be in it) matches exactly when the
    expression is found in that fragment. *)
Theorem fragment_decides (segs : list string) (pattern : string) :
  segs <> [] ->
  Forall (fun n => JsString.includes n "/" = false) segs ->
  last segs "" <> "" ->
  (JsString.includes pattern "*" = false ->
   matches (JsString.join "/" segs) [pattern]
   = inr (JsString.includes
            (JsString.toLowerCase (relativePath (JsString.join "/" segs)))
            (JsString.toLowerCase pattern)))
  /\ (forall ts,
         JsString.includes pattern "*" = true ->
         RegExp.compile host (JsString.replace_stars pattern)
         = inr (RegExp.Terms ts) ->
         matches (JsString.join "/" segs) [pattern]
         = inr (RegExp.search ts (relativePath (JsString.join "/" segs)))).
Proof.
  intros Hne Hall Hlast.
  destruct (relativePath_ends_with_basename _ Hne Hall Hlast) as [before E].
  split.
  - intros Hstar. rewrite (literal_pattern_matches _ _ Hstar). f_equal.
    destruct (JsString.includes
                (JsString.toLowerCase (Path.basename (JsString.join "/" segs)))
                (JsString.toLowerCase pattern)) eqn:Hb; [|reflexivity].
    apply includes_occurs in Hb.
    apply (occurs_within _ _ before "") in Hb.
    rewrite append_empty_r, <- E in Hb. apply includes_occurs in Hb.
    now rewrite Hb.
  - intros ts Hstar Hc. unfold matches. cbn [some_pattern].
    unfold pattern_matches. rewrite Hstar, Hc. cbn [RegExp.test].
    destruct (RegExp.search ts (Path.basename (JsString.join "/" segs))) eqn:Hb.
    + apply search_spec in Hb. destruct Hb as (b & found & a & Eb & Hm).
      assert (Hr : RegExp.search
                     ts (relativePath (JsString.join "/" segs)) = true).
      { apply search_spec. exists (before ++ b), found, a.
        split; [|exact Hm]. rewrite E, Eb. symmetry. apply append_assoc. }
      now rewrite Hr.
    + cbn [orb].
      destruct (RegExp.search ts (relativePath (JsString.join "/" segs)));
        reflexivity.
Qed.

(** ** More on the prober *)

Lemma bump_sum (key : string) (h : list (string * nat)) :
  list_sum (map snd (bump key h)) = S (list_sum (map snd h)).
Proof.
  induction h as [|[k n] rest IH]; [reflexivity|].
  cbn [bump]. destruct (String.eqb k key); simpl in *.
  - lia.
  - rewrite IH. lia.
Qed.

Lemma bump_keys (key : string) (h : list (string * nat)) :
  map fst (bump key h)
  = if existsb (String.eqb key) (map fst h) then map fst h
    else (map fst h ++ [key])%list.
Proof.
  induction h as [|[k n] rest IH]; [reflexivity|].
  cbn [bump map fst existsb app]. rewrite (String.eqb_sym key k).
  destruct (String.eqb k key); cbn [map fst orb]; [reflexivity|].
  rewrite IH. now destruct (existsb (String.eqb key) (map fst rest)).
Qed.

Lemma bump_NoDup (key : string) (h : list (string * nat)) :
  NoDup (map fst h) -> NoDup (map fst (bump key h)).
Proof.
  intros H. rewrite bump_keys.
  destruct (existsb (String.eqb key) (map fst h)) eqn:E; [exact H|].
  apply NoDup_app; [exact H | repeat constructor; intros [] |].
  intros x Hx [Ex | []]. subst x.
  assert (existsb (String.eqb key) (map fst h) = true); [|congruence].
  apply existsb_exists. exists key. split; [exact Hx | apply String.eqb_refl].
Qed.

Lemma bump_count (key k : string) (h : list (string * nat)) :
  count_for k (bump key h)
  = if String.eqb key k then S (count_for k h) else count_for k h.
Proof.
  induction h as [|[k' n] rest IH].
  - cbn [bump count_for]. now destruct (String.eqb key k).
  - cbn [bump]. destruct (String.eqb k' key) eqn:E1.
    + apply String.eqb_eq in E1. subst k'. cbn [count_for].
      destruct (String.eqb key k); [lia | reflexivity].
    + cbn [count_for]. destruct (String.eqb k' k) eqn:E2; [|exact IH].
      apply String.eqb_eq in E2. subst k'.
      rewrite String.eqb_sym in E1. now rewrite E1.
Qed.

Lemma histogram_from (fs : list string) :
  forall h,
    NoDup (map fst h) ->
    list_sum (map snd (fold_left (fun h file => bump (type_key file) h) fs h))
    = list_sum (map snd h) + List.length fs
    /\ NoDup (map fst (fold_left (fun h file => bump (type_key file) h) fs h))
    /\ forall k,
         count_for k (fold_left (fun h file => bump (type_key file) h) fs h)
         = count_for k h
           + List.length (filter (fun f => String.eqb (type_key f) k) fs).
Proof.
  induction fs as [|f fs IH]; intros h Hh.
  - cbn [fold_left filter List.length].
    repeat split; [now rewrite Nat.add_0_r | exact Hh |].
    intros k. now rewrite Nat.add_0_r.
  - cbn [fold_left].
    destruct (IH _ (bump_NoDup (type_key f) _ Hh)) as (Hs & Hn & Hc).
    repeat split.
    + rewrite Hs, bump_sum. cbn [List.length]. lia.
    + exact Hn.
    + intros k. rewrite Hc, bump_count. cbn [filter].
      destruct (String.eqb (type_key f) k); cbn [List.length]; lia.
Qed.

(** X9: when its walk returns, the prober's file-type counts add up to
    [totalFiles], no type is listed twice, and the count kept for a type is
    the number of walked files of that type (the lower-cased extension, or
    [no-extension]); later failures of the probe do not change them. *)
Theorem fileTypes_count_files (repoPath : string) (root : node) (r : RepoInfo)
    (filePatterns allFiles : list string) :
  getAllFiles repoPath root [] = inr allFiles ->
  list_sum (map snd (fileTypes (fst (analyzeRepository repoPath root r filePatterns))))
  = totalFiles (fst (analyzeRepository repoPath root r filePatterns))
  /\ NoDup (map fst (fileTypes (fst (analyzeRepository repoPath root r filePatterns))))
  /\ forall k,
       count_for k (fileTypes (fst (analyzeRepository repoPath root r filePatterns)))
       = List.length (filter (fun f => String.eqb (type_key f) k) allFiles).
Proof.
  intros H.
  assert (E : fileTypes (fst (analyzeRepository repoPath root r filePatterns))
              = histogram allFiles).
  { unfold analyzeRepository. rewrite H.
    destruct (findMatchingFiles allFiles filePatterns); [reflexivity|].
    destruct (special_files repoPath root _); [reflexivity|].
    destruct (readdirSync repoPath root); [reflexivity|].
    destruct (top_level repoPath _ []) as [o [stopped|]]; reflexivity. }
  rewrite E, (analyzeRepository_totalFiles _ _ _ _ _ H).
  destruct (histogram_from allFiles [] (NoDup_nil _)) as (Hs & Hn & Hc).
  repeat split; [exact Hs | exact Hn | exact Hc].
Qed.

Lemma special_files_paths (repoPath : string) (root : node)
    (matching : list string) (special : list SpecialFile) :
  special_files repoPath root matching = inr special ->
  map sf_path special = map (relative repoPath) matching.
Proof.
  revert special. induction matching as [|f rest IH]; intros special H.
  - simpl in H. injection H as <-. reflexivity.
  - cbn [special_files] in H.
    destruct (statSync repoPath root f) as [e | n]; [discriminate|].
    destruct (special_files repoPath root rest) as [e | l]; [discriminate|].
    injection H as <-. cbn [map sf_path]. now rewrite (IH l eq_refl).
Qed.

Lemma analyzeRepository_special (repoPath : string) (root : node)
    (r : RepoInfo) (filePatterns allFiles matching : list string) :
  getAllFiles repoPath root [] = inr allFiles ->
  findMatchingFiles allFiles filePatterns = inr matching ->
  error_field (fst (analyzeRepository repoPath root r filePatterns)) = None ->
  map sf_path (specialFiles (fst (analyzeRepository repoPath root r filePatterns)))
  = map (relative repoPath) matching.
Proof.
  intros H1 H2. unfold analyzeRepository. rewrite H1, H2.
  destruct (special_files repoPath root matching) as [e | special] eqn:Hsp;
    [cbn; discriminate|].
  destruct (readdirSync repoPath root); [cbn; discriminate|].
  destruct (top_level repoPath _ []) as [o [stopped|]]; [cbn; discriminate|].
  intros _. cbn [fst specialFiles]. exact (special_files_paths _ _ _ _ Hsp).
Qed.

(** X10: in every result that a run appends and whose probe recorded no
    error, the paths of the prober's [specialFiles] are the result's
    [matchingFiles], in the same order: the two calls of the matcher, on the
    two walks of the same clone, agree. *)
Theorem specialFiles_are_matchingFiles (query : string)
    (filePatterns : list string) (limit : jsnum) (s : state) :
  exists appended,
    results (snd (analyzeRepositories query filePatterns limit s))
    = (results s ++ appended)%list
    /\ Forall (fun res =>
                 error_field (analysis res) = None ->
                 map sf_path (specialFiles (analysis res)) = matchingFiles res)
              appended.
Proof.
  destruct (run_appends query filePatterns limit s) as (appended & Happ & Hall).
  exists appended. split; [exact Happ|].
  apply Forall_forall. intros res Hres.
  destruct (Hall _ Hres) as (r & Hin & _).
  destruct (contribution_inv _ _ _ Hin)
    as (root & allFiles & matching & H1 & H2 & H3 & ->).
  cbn [analysis matchingFiles]. now apply analyzeRepository_special with allFiles.
Qed.

(** ** Paths looked up in a clone *)

Lemma entry_of_distinct (es : entries) (file : string) (child : node) :
  distinct (map fst es) = true -> In (file, child) es ->
  entry file es = Some child.
Proof.
  induction es as [|[k n] rest IH]; intros Hd Hin; [destruct Hin|].
  cbn [map fst distinct] in Hd. apply andb_true_iff in Hd.
  destruct Hd as [Hk Hrest]. apply negb_true_iff in Hk.
  cbn [entry]. destruct Hin as [E | Hin].
  - injection E as -> ->. now rewrite String.eqb_refl.
  - destruct (String.eqb k file) eqn:Ek; [|now apply IH].
    apply String.eqb_eq in Ek. subst k.
    assert (existsb (String.eqb file) (map fst rest) = true); [|congruence].
    apply existsb_exists. exists file. split; [|apply String.eqb_refl].
    apply in_map_iff. now exists (file, child).
Qed.

Lemma unique_names_entry (es : entries) (file : string) (child : node) :
  unique_names (Dir (inr es)) = true -> In (file, child) es ->
  entry file es = Some child /\ unique_names child = true.
Proof.
  intros Hu Hin. cbn [unique_names] in Hu. apply andb_true_iff in Hu.
  destruct Hu as [Hd Hall]. split; [now apply entry_of_distinct|].
  rewrite forallb_forall in Hall. exact (Hall _ Hin).
Qed.

(** In a tree without a repeated name, the names of a file lead to it. *)
Lemma resolve_file_at (n : node) (segs : list string) :
  file_at n segs -> unique_names n = true ->
  exists size content, resolve n segs = inr (File size content).
Proof.
  induction 1 as [es file size content Hin | es file listing segs Hin Hat IH];
    intros Hu; destruct (unique_names_entry _ _ _ Hu Hin) as [He Hc];
    cbn [resolve]; rewrite He.
  - now exists size, content.
  - exact (IH Hc).
Qed.

Lemma append_longer (s t : string) (c : ascii) : s ++ String c t <> s.
Proof.
  induction s as [|a s IH]; [discriminate|].
  simpl. intros E. injection E as E. now apply IH.
Qed.

Lemma length_append (a b : string) :
  String.length (a ++ b) = String.length a + String.length b.
Proof. induction a as [|c a IH]; [reflexivity|]. simpl. now rewrite IH. Qed.

(** Looking up a path below the mount point follows its segments. *)
Lemma lookup_below (mount : string) (root : node) (segs : list string) :
  segs <> [] -> Forall (fun s => Path.plain s = true) segs ->
  lookup mount root (mount ++ "/" ++ JsString.join "/" segs) = resolve root segs.
Proof.
  intros Hne Hall. unfold lookup.
  assert (E : String.eqb (mount ++ "/" ++ JsString.join "/" segs) mount = false).
  { apply String.eqb_neq. apply append_longer. }
  rewrite E. rewrite <- append_assoc. rewrite startsWith_app.
  replace (String.length mount + 1) with (String.length (mount ++ "/"))
    by (rewrite length_append; reflexivity).
  rewrite drop_app, split_join; [reflexivity | exact Hne |].
  now apply plain_no_slash.
Qed.

(** On a clean root, in a tree of plain names none of which is repeated,
    every walked path is found again, and is a regular file. *)
Lemma lookup_walked (root : string) (tree : node) (fs : list string) (p : string) :
  Path.clean root -> wf_node tree = true -> unique_names tree = true ->
  getAllFiles root tree [] = inr fs -> In p fs ->
  exists size content, lookup root tree p = inr (File size content).
Proof.
  intros Hroot Hwf Hu Hwalk Hp.
  destruct (walked_below _ _ _ _ Hroot Hwf Hwalk Hp) as (segs & Hat & -> & Hsegs & _).
  rewrite lookup_below; [|eapply file_at_nonempty; exact Hat | exact Hsegs].
  now apply resolve_file_at.
Qed.

Lemma special_files_returns (root : string) (tree : node) (fs matching : list string) :
  Path.clean root -> wf_node tree = true -> unique_names tree = true ->
  getAllFiles root tree [] = inr fs -> incl matching fs ->
  exists special, special_files root tree matching = inr special.
Proof.
  intros Hroot Hwf Hu Hwalk. induction matching as [|f rest IH]; intros Hincl.
  - simpl. eauto.
  - destruct IH as [l Hl]; [intros x Hx; apply Hincl; now right|].
    destruct (lookup_walked _ _ _ f Hroot Hwf Hu Hwalk) as (size & content & Hf);
      [apply Hincl; now left|].
    cbn [special_files]. unfold statSync. rewrite Hf, Hl. eauto.
Qed.

Lemma top_level_returns (dir : string) (es : entries) :
  forall acc out o,
    walk_entries dir es acc = inr out ->
    snd (top_level dir es o) = None.
Proof.
  induction es as [|[file child] rest IH]; intros acc out o H; [reflexivity|].
  destruct child as [size content | listing | c];
    cbn [walk_entries top_level] in *.
  - now apply (IH _ _ _ H).
  - destruct (negb (skipped file)); [|now apply (IH _ _ _ H)].
    destruct (getAllFiles (Path.join [dir; file]) (Dir listing) acc);
      [discriminate | now apply (IH _ _ _ H)].
  - discriminate.
Qed.

Lemma analyzeRepository_no_error (repoPath : string) (root : node)
    (r : RepoInfo) (filePatterns allFiles matching : list string) :
  Path.clean repoPath -> wf_node root = true -> unique_names root = true ->
  getAllFiles repoPath root [] = inr allFiles ->
  findMatchingFiles allFiles filePatterns = inr matching ->
  error_field (fst (analyzeRepository repoPath root r filePatterns)) = None.
Proof.
  intros Hclean Hwf Hu H1 H2. unfold analyzeRepository. rewrite H1, H2.
  destruct (special_files_returns _ _ _ matching Hclean Hwf Hu H1
              (findMatchingFiles_incl _ _ _ H2)) as [special ->].
  destruct root as [size content | [c | es] | c]; try discriminate H1.
  cbn [readdirSync]. rewrite getAllFiles_Dir in H1.
  pose proof (top_level_returns _ _ _ _ [] H1) as Htop.
  destruct (top_level repoPath es []) as [o stopped]. cbn [snd] in Htop.
  subst stopped. reflexivity.
Qed.

(** X11: as long as the clone is the one that the orchestrator walked (a
    normalized absolute temporary directory, an owner and a name without
    slash, plain names in the clone, none twice in a directory), the probe of
    an appended result records no error: after the walk and the match of the
    orchestrator, nothing in the prober can throw. *)
Theorem probe_records_no_error (query : string) (filePatterns : list string)
    (limit : jsnum) (s : state) :
  exists appended,
    results (snd (analyzeRepositories query filePatterns limit s))
    = (results s ++ appended)%list
    /\ Forall
         (fun res =>
            Path.clean tempDir ->
            Path.plain (owner (repo res) ++ "-" ++ name (repo res)) = true ->
            forall root,
              git_clone (url (repo res)) (localPath res) = inr root ->
              wf_node root = true -> unique_names root = true ->
              error_field (analysis res) = None)
         appended.
Proof.
  destruct (run_appends query filePatterns limit s) as (appended & Happ & Hall).
  exists appended. split; [exact Happ|].
  apply Forall_forall. intros res Hres.
  destruct (Hall _ Hres) as (r & Hin & _).
  destruct (contribution_inv _ _ _ Hin)
    as (root & allFiles & matching & H1 & H2 & H3 & ->).
  cbn [analysis repo localPath].
  intros Htemp Hplain root' Hclone Hwf Hu.
  rewrite H1 in Hclone. injection Hclone as <-.
  destruct (join_clean _ _ Htemp Hplain) as [_ Hclean].
  apply analyzeRepository_no_error with allFiles matching; try assumption.
  unfold clone_path. now rewrite (proj1 (join_clean _ _ Htemp Hplain)).
Qed.

(** ** Reading files back *)

(** X12: [readFileContent] answers [Invalid repository index] exactly for an
    index at or beyond the number of results; an index below 0 passes that
    test and fails on the missing result instead; so a content is returned
    only for an index from 0 up to the number of results. *)
Theorem readFileContent_index (s : state) (repoIndex : Z) (filePath : string) :
  (readFileContent s repoIndex filePath = inl InvalidRepositoryIndex
   <-> (Z.of_nat (List.length (results s)) <= repoIndex)%Z)
  /\ ((repoIndex < 0)%Z ->
      readFileContent s repoIndex filePath = inl UndefinedResult)
  /\ (forall text,
         readFileContent s repoIndex filePath = inr text ->
         (0 <= repoIndex < Z.of_nat (List.length (results s)))%Z).
Proof.
  unfold readFileContent, result_at.
  destruct (Z.leb_spec (Z.of_nat (List.length (results s))) repoIndex) as [Hge | Hlt].
  - repeat split; intros; try reflexivity; try discriminate; lia.
  - destruct (Z.ltb_spec repoIndex 0) as [Hneg | Hpos].
    + repeat split; intros; try reflexivity; try discriminate; lia.
    + destruct (nth_error (results s) (Z.to_nat repoIndex)) as [res|].
      * destruct (existsSync _ _ _);
          [destruct (readFileSync _ _ _)|];
          repeat split; intros; try reflexivity; try discriminate; lia.
      * repeat split; intros; try reflexivity; try discriminate; lia.
Qed.

Lemma join_app (a b : list string) :
  a <> [] -> b <> [] ->
  JsString.join "/" (a ++ b) = JsString.join "/" a ++ "/" ++ JsString.join "/" b.
Proof.
  intros Ha Hb. induction a as [|x rest IH]; [contradiction|].
  destruct rest as [|y rest'].
  - cbn [app]. destruct b; [contradiction | reflexivity].
  - change (JsString.join "/" ((x :: y :: rest') ++ b))
      with (x ++ "/" ++ JsString.join "/" ((y :: rest') ++ b)).
    rewrite IH by discriminate.
    change (JsString.join "/" (x :: y :: rest'))
      with (x ++ "/" ++ JsString.join "/" (y :: rest')).
    now rewrite !append_assoc.
Qed.

(** [path.join] of a clean directory and a relative path of plain names. *)
Lemma join_clean_relative (dir : string) (segs : list string) :
  Path.clean dir -> segs <> [] -> Forall (fun s => Path.plain s = true) segs ->
  Path.join [dir; JsString.join "/" segs] = dir ++ "/" ++ JsString.join "/" segs.
Proof.
  intros (dsegs & Hne & Hall & ->) Hs Hsegs.
  assert (E : Path.rooted dsegs ++ "/" ++ JsString.join "/" segs
              = Path.rooted (dsegs ++ segs)).
  { unfold Path.rooted. rewrite join_app by assumption. now rewrite append_assoc. }
  unfold Path.join.
  assert (Ht : JsString.truthy (JsString.join "/" segs) = true).
  { pose proof (join_plain_nonempty _ Hs Hsegs) as Hj.
    now destruct (JsString.join "/" segs). }
  cbn [filter]. change (JsString.truthy (Path.rooted dsegs)) with true.
  cbv iota. rewrite Ht.
  change (JsString.join "/" [Path.rooted dsegs; JsString.join "/" segs])
    with (Path.rooted dsegs ++ "/" ++ JsString.join "/" segs).
  rewrite E. apply normalize_rooted.
  - now destruct dsegs.
  - apply Forall_app. now split.
Qed.

Lemma readFileContent_at (s : state) (k : nat) (res : AnalysisResult)
    (filePath : string) :
  nth_error (results s) k = Some res ->
  readFileContent s (Z.of_nat k) filePath =
  if existsSync (localPath res) (clone_at res)
                (Path.join [localPath res; filePath])
  then match readFileSync (localPath res) (clone_at res)
                          (Path.join [localPath res; filePath]) with
       | inl e => inl (ReadError e)
       | inr text => inr text
       end
  else inl (FileNotFound filePath).
Proof.
  intros H. unfold readFileContent, result_at.
  assert (Hk : k < List.length (results s)).
  { apply nth_error_Some. congruence. }
  destruct (Z.leb_spec (Z.of_nat (List.length (results s))) (Z.of_nat k)); [lia|].
  destruct (Z.ltb_spec (Z.of_nat k) 0); [lia|].
  now rewrite Nat2Z.id, H.
Qed.

(** X13: every path that a result lists in [files] can be read back: with
    the index of the result and that path, [readFileContent] finds the file
    of the clone that the path names and returns its content (or the error of
    [readFileSync] when the file cannot be opened), never [File not found]
    nor an index error.  The clone is as in X11. *)
Theorem readFileContent_reads_listed (query : string)
    (filePatterns : list string) (limit : jsnum) (s : state) :
  exists appended,
    results (snd (analyzeRepositories query filePatterns limit s))
    = (results s ++ appended)%list
    /\ forall k res p root,
         nth_error appended k = Some res ->
         In p (files res) ->
         Path.clean tempDir ->
         Path.plain (owner (repo res) ++ "-" ++ name (repo res)) = true ->
         git_clone (url (repo res)) (localPath res) = inr root ->
         wf_node root = true -> unique_names root = true ->
         exists size content,
           resolve root (JsString.split JsString.slash p)
           = inr (File size content)
           /\ readFileContent
                (snd (analyzeRepositories query filePatterns limit s))
                (Z.of_nat (List.length (results s) + k)) p
              = match content with
                | Some text => inr text
                | None =>
                    inl (ReadError (SystemError EACCES "open"
                                                (localPath res ++ "/" ++ p)))
                end.
Proof.
  destruct (run_appends query filePatterns limit s) as (appended & Happ & Hall).
  exists appended. split; [exact Happ|].
  intros k res p root Hk Hp Htemp Hplain Hclone Hwf Hu.
  assert (Hres : In res appended) by (eapply nth_error_In; exact Hk).
  destruct (Hall _ Hres) as (r & Hin & _).
  destruct (contribution_inv _ _ _ Hin)
    as (root' & allFiles & matching & H1 & H2 & H3 & E).
  assert (Hnth : nth_error
                   (results (snd (analyzeRepositories query filePatterns limit s)))
                   (List.length (results s) + k) = Some res).
  { rewrite Happ, nth_error_app2 by lia.
    now replace (List.length (results s) + k - List.length (results s)) with k by lia. }
  rewrite (readFileContent_at _ _ _ p Hnth).
  unfold clone_at. rewrite Hclone. subst res.
  cbn [files repo localPath] in *.
  rewrite H1 in Hclone. injection Hclone as ->.
  destruct (join_clean _ _ Htemp Hplain) as [Hpath Hclean].
  unfold clone_path in *. rewrite Hpath in *.
  apply in_map_iff in Hp. destruct Hp as (f & <- & Hf).
  destruct (walked_below _ _ _ _ Hclean Hwf H2 Hf) as (segs & Hat & -> & Hsegs & _).
  rewrite relative_below.
  pose proof (file_at_nonempty _ _ Hat) as Hne.
  destruct (resolve_file_at _ _ Hat Hu) as (size & content & Hr).
  exists size, content. split.
  { rewrite split_join; [exact Hr | exact Hne | now apply plain_no_slash]. }
  rewrite (join_clean_relative _ _ Hclean Hne Hsegs).
  unfold existsSync, readFileSync.
  rewrite (lookup_below _ root _ Hne Hsegs), Hr.
  now destruct content.
Qed.

(** ** More on the command line *)

Lemma includes_arg_In (args : list string) (x : string) :
  Cli.includes_arg args x = true <-> In x args.
Proof.
  unfold Cli.includes_arg. rewrite existsb_exists. split.
  - intros (y & Hy & E). apply String.eqb_eq in E. now subst y.
  - intros H. exists x. split; [exact H | apply String.eqb_refl].
Qed.

(** X14: [main] prints the usage text and analyzes nothing exactly when it
    is given no argument or [--help] is among the arguments, wherever it
    stands; in every other case it runs the analysis with its first argument
    as the query. *)
Theorem main_usage_or_run (args : list string) :
  (Cli.main_args args = Cli.Usage <-> args = [] \/ In "--help" args)
  /\ (forall query patterns limit,
         Cli.main_args args = Cli.Run query patterns limit ->
         hd_error args = Some query).
Proof.
  unfold Cli.main_args. destruct args as [|q rest].
  - split; [split; auto | discriminate].
  - destruct (Cli.includes_arg (q :: rest) "--help") eqn:E.
    + split; [|discriminate]. split; [|reflexivity].
      intros _. right. now apply includes_arg_In.
    + split.
      * split; [discriminate|]. intros [H | H]; [discriminate|].
        apply includes_arg_In in H. congruence.
      * intros query patterns limit H. now injection H as -> _ _.
Qed.

Lemma digits_uint (d : Decimal.uint) :
  forall acc,
    ParseInt.digits 10 (Some (Z.of_nat acc)) (NilEmpty.string_of_uint d)
    = Some (Z.of_nat (Nat.of_uint_acc d acc)).
Proof.
  induction d; intros acc; cbn [NilEmpty.string_of_uint Nat.of_uint_acc];
    [reflexivity|..];
    cbn [ParseInt.digits];
    match goal with
    | |- context [ParseInt.digit_value 10 ?c] =>
        change (ParseInt.digit_value 10 c)
          with (Some (nat_of_ascii c - 48))
    end;
    cbv beta iota zeta;
    match goal with
    | |- ParseInt.digits 10 (Some ?z) _ = Some (Z.of_nat (Nat.of_uint_acc _ ?m)) =>
        replace z with (Z.of_nat m);
        [apply IHd | rewrite Nat.tail_mul_spec; cbn [nat_of_ascii]; cbn; lia]
    end.
Qed.

Lemma digits_start (c : ascii) (s : string) :
  ParseInt.digits 10 None (String c s)
  = match ParseInt.digit_value 10 c with
    | None => None
    | Some _ => ParseInt.digits 10 (Some 0%Z) (String c s)
    end.
Proof. cbn [ParseInt.digits]. now destruct (ParseInt.digit_value 10 c). Qed.

Lemma digits_stop (d : Decimal.uint) (c : ascii) (rest : string) :
  ParseInt.digit_value 10 c = None ->
  forall acc,
    ParseInt.digits 10 acc (NilEmpty.string_of_uint d ++ String c rest)
    = ParseInt.digits 10 acc (NilEmpty.string_of_uint d).
Proof.
  intros Hc. induction d; intros acc; cbn [NilEmpty.string_of_uint append];
    [cbn [ParseInt.digits]; now rewrite Hc|..];
    cbn [ParseInt.digits];
    match goal with
    | |- context [ParseInt.digit_value 10 ?c] =>
        change (ParseInt.digit_value 10 c)
          with (Some (nat_of_ascii c - 48))
    end;
    cbv beta iota zeta; apply IHd.
Qed.

Lemma parseInt_decimal_start (c0 : ascii) (s' : string) :
  JsString.is_digit c0 = true ->
  (c0 = "0"%char ->
   match s' with
   | String b _ => Ascii.eqb b "x" || Ascii.eqb b "X" = false
   | EmptyString => True
   end) ->
  ParseInt.parseInt (String c0 s')
  = match ParseInt.digits 10 None (String c0 s') with
    | None => NaN
    | Some z => ParseInt.number 1 z
    end.
Proof.
  intros Hd Hx.
  destruct c0 as [[] [] [] [] [] [] [] []]; try discriminate Hd;
    unfold ParseInt.parseInt; cbn [ParseInt.trim_start];
    match goal with
    | |- context [ParseInt.is_space ?c] =>
        change (ParseInt.is_space c) with false
    end; cbv iota;
    destruct s' as [|b s'']; try reflexivity.
  specialize (Hx eq_refl). cbn [Ascii.eqb Bool.eqb andb].
  now rewrite Hx.
Qed.

Lemma not_digit_no_value (c : ascii) :
  JsString.is_digit c = false -> ParseInt.digit_value 10 c = None.
Proof.
  destruct c as [[] [] [] [] [] [] [] []]; intros H;
    try discriminate H; reflexivity.
Qed.

Lemma to_uint_nonnil (n : nat) : Nat.to_uint n <> Decimal.Nil.
Proof.
  rewrite <- (DecimalNat.Unsigned.of_to n) at 1.
  rewrite DecimalNat.Unsigned.to_of. apply DecimalFacts.unorm_nonnil.
Qed.

Lemma of_nat_digits (n : nat) :
  JsString.of_nat n = NilEmpty.string_of_uint (Nat.to_uint n).
Proof.
  unfold JsString.of_nat, NilZero.string_of_uint.
  pose proof (to_uint_nonnil n). now destruct (Nat.to_uint n).
Qed.

(** An integer up to 2^53 is its own Number value. *)
Lemma number_exact (z : Z) :
  (z <= 2 ^ 53)%Z -> ParseInt.number 1 z = Num z.
Proof.
  intros Hz. unfold ParseInt.number, ParseInt.nearest_double.
  change (2 ^ 53)%Z with 9007199254740992%Z in Hz.
  destruct (Z.leb_spec z 9007199254740992); [|lia].
  f_equal. lia.
Qed.

(** [parseInt] of decimal digits followed by nothing, or by something that
    does not start with a digit (an [x] after a lone [0] apart, which makes
    a hexadecimal prefix): the number written, as long as it is at most
    2^53. *)
Lemma parseInt_uint (d : Decimal.uint) (tail : string) :
  (Z.of_nat (Nat.of_uint d) <= 2 ^ 53)%Z ->
  d <> Decimal.Nil ->
  match tail with
  | EmptyString => True
  | String c _ =>
      JsString.is_digit c = false
      /\ (d = Decimal.D0 Decimal.Nil ->
          Ascii.eqb c "x" || Ascii.eqb c "X" = false)
  end ->
  ParseInt.parseInt (NilEmpty.string_of_uint d ++ tail)
  = Num (Z.of_nat (Nat.of_uint d)).
Proof.
  intros Hbound Hd Htail.
  assert (Hdigits : ParseInt.digits 10 (Some 0%Z)
                      (NilEmpty.string_of_uint d ++ tail)
                    = Some (Z.of_nat (Nat.of_uint d))).
  { destruct tail as [|c rest].
    - rewrite append_empty_r. apply (digits_uint d 0).
    - destruct Htail as [Hc _].
      rewrite (digits_stop d c rest (not_digit_no_value c Hc)).
      apply (digits_uint d 0). }
  assert (Hstart : exists c0 s',
             NilEmpty.string_of_uint d ++ tail = String c0 s'
             /\ JsString.is_digit c0 = true
             /\ (c0 = "0"%char ->
                 match s' with
                 | String b _ => Ascii.eqb b "x" || Ascii.eqb b "X" = false
                 | EmptyString => True
                 end)).
  { destruct d as [|d'|d'|d'|d'|d'|d'|d'|d'|d'|d']; [contradiction|..];
      cbn [NilEmpty.string_of_uint append];
      eexists; eexists; (split; [reflexivity|]); (split; [reflexivity|]);
      intros E; try discriminate E.
    destruct d'; cbn [NilEmpty.string_of_uint append]; try reflexivity.
    destruct tail as [|c rest]; [exact I|]. now apply Htail. }
  destruct Hstart as (c0 & s' & E & Hc0 & Hx).
  rewrite E in *. rewrite (parseInt_decimal_start c0 s' Hc0 Hx).
  rewrite digits_start.
  replace (ParseInt.digit_value 10 c0) with (Some (nat_of_ascii c0 - 48)).
  - rewrite Hdigits. now apply number_exact.
  - destruct c0 as [[] [] [] [] [] [] [] []]; try discriminate Hc0; reflexivity.
Qed.

Lemma parseInt_of_nat (n : nat) :
  (Z.of_nat n <= 2 ^ 53)%Z ->
  ParseInt.parseInt (JsString.of_nat n) = Num (Z.of_nat n).
Proof.
  intros Hn. rewrite of_nat_digits.
  rewrite <- (append_empty_r (NilEmpty.string_of_uint (Nat.to_uint n))).
  rewrite (parseInt_uint _ ""); rewrite ?DecimalNat.Unsigned.of_to;
    [reflexivity | exact Hn | apply to_uint_nonnil | exact I].
Qed.

Lemma after_limit_app (pre rest : list string) :
  ~ In "--limit" pre ->
  Cli.after_limit (pre ++ "--limit" :: rest)%list = hd_error rest.
Proof.
  induction pre as [|a pre IH]; intros H.
  - cbn. now destruct rest.
  - cbn [app Cli.after_limit]. destruct (String.eqb a "--limit") eqn:E.
    + apply String.eqb_eq in E. elim H. now left.
    + apply IH. intros Hin. apply H. now right.
Qed.

Lemma of_nat_truthy (n : nat) : JsString.truthy (JsString.of_nat n) = true.
Proof.
  rewrite of_nat_digits. pose proof (to_uint_nonnil n).
  now destruct (Nat.to_uint n).
Qed.

Lemma uint_all_digits (d : Decimal.uint) :
  JsString.all_digits (NilEmpty.string_of_uint d) = true.
Proof.
  induction d; cbn [NilEmpty.string_of_uint JsString.all_digits];
    [reflexivity|..]; rewrite IHd; reflexivity.
Qed.

Lemma of_nat_all_digits (n : nat) :
  JsString.matches_digits (JsString.of_nat n) = true.
Proof.
  rewrite of_nat_digits. pose proof (to_uint_nonnil n) as Hn.
  pose proof (uint_all_digits (Nat.to_uint n)) as H.
  destruct (Nat.to_uint n); [contradiction|..]; exact H.
Qed.

(** X15: the decimal text of a natural number up to 2^53 (the numbers that
    a double holds exactly) read by [parseInt] is that number; so an
    argument [--limit] followed by the decimal text of such an [n] sets the
    limit to [n].  The decimal text of a natural number, of any size, is
    never one of the file patterns. *)
Theorem limit_reads_decimal (n : nat) :
  ((Z.of_nat n <= 2 ^ 53)%Z ->
   ParseInt.parseInt (JsString.of_nat n) = Num (Z.of_nat n)
   /\ (forall before after,
          ~ In "--limit" before ->
          Cli.limit_of (before ++ "--limit" :: JsString.of_nat n :: after)%list
          = Num (Z.of_nat n)))
  /\ (forall args, ~ In (JsString.of_nat n) (Cli.filePatterns_of args)).
Proof.
  split; [intros Hn; split; [now apply parseInt_of_nat|]|].
  - intros before after H. unfold Cli.limit_of.
    rewrite (after_limit_app _ _ H). cbn [hd_error].
    rewrite of_nat_truthy. now apply parseInt_of_nat.
  - intros args H. unfold Cli.filePatterns_of in H.
    apply filter_In in H. destruct H as [_ H].
    rewrite of_nat_all_digits, andb_false_r in H. discriminate.
Qed.

Lemma all_digits_stop (s : string) (c : ascii) (rest : string) :
  JsString.is_digit c = false ->
  JsString.all_digits (s ++ String c rest) = false.
Proof.
  intros Hc. induction s as [|a s IH]; cbn [append JsString.all_digits].
  - now rewrite Hc.
  - rewrite IH. apply andb_false_r.
Qed.

(** X16: [parseInt] reads the digits that a token starts with and drops the
    rest: after [--limit], a token made of the decimal text of [n], at most
    2^53, and then of something that does not start with a digit (nor, after
    a lone 0, with [x]) sets the limit to [n], and the same token is also
    kept as a file pattern. *)
Theorem limit_reads_digit_prefix (n : nat) (c : ascii) (rest : string)
    (before after : list string) :
  (Z.of_nat n <= 2 ^ 53)%Z ->
  JsString.is_digit c = false ->
  (n = 0 -> Ascii.eqb c "x" || Ascii.eqb c "X" = false) ->
  ~ In "--limit" before ->
  Cli.limit_of
    (before ++ "--limit" :: (JsString.of_nat n ++ String c rest)%string :: after)%list
  = Num (Z.of_nat n)
  /\ In (JsString.of_nat n ++ String c rest)
        (Cli.filePatterns_of
           (before ++ "--limit" :: (JsString.of_nat n ++ String c rest)%string :: after)%list).
Proof.
  intros Hn Hc Hx Hbefore. split.
  - unfold Cli.limit_of. rewrite (after_limit_app _ _ Hbefore). cbn [hd_error].
    assert (Ht : JsString.truthy (JsString.of_nat n ++ String c rest) = true).
    { pose proof (of_nat_truthy n). now destruct (JsString.of_nat n). }
    rewrite Ht, of_nat_digits.
    rewrite (parseInt_uint _ (String c rest)).
    + now rewrite DecimalNat.Unsigned.of_to.
    + now rewrite DecimalNat.Unsigned.of_to.
    + apply to_uint_nonnil.
    + split; [exact Hc|]. intros E. apply Hx.
      rewrite <- (DecimalNat.Unsigned.of_to n), E. reflexivity.
  - unfold Cli.filePatterns_of. apply filter_In. split.
    + destruct before as [|q before']; cbn [app tl].
      * now left.
      * apply in_or_app. right. right. now left.
    + assert (Hd : JsString.matches_digits (JsString.of_nat n ++ String c rest)
                   = false).
      { pose proof (all_digits_stop (JsString.of_nat n) c rest Hc) as Ha.
        unfold JsString.matches_digits.
        now destruct (JsString.of_nat n ++ String c rest). }
      rewrite Hd. cbn [negb]. rewrite andb_true_r.
      apply negb_true_iff, String.eqb_neq. intros E.
      pose proof (of_nat_all_digits n) as Hall. rewrite of_nat_digits in *.
      pose proof (to_uint_nonnil n) as Hnil.
      destruct (Nat.to_uint n); [contradiction|..]; discriminate E.
Qed.

(** ** More on the reporter and the orchestrator *)

Lemma insert_desc_perm (x : string * nat) (l : list (string * nat)) :
  Permutation (insert_desc x l) (x :: l).
Proof.
  induction l as [|y rest IH]; [reflexivity|].
  cbn [insert_desc]. destruct (snd y <=? snd x)%nat; [reflexivity|].
  rewrite IH. apply perm_swap.
Qed.

Lemma sort_desc_perm (l : list (string * nat)) : Permutation (sort_desc l) l.
Proof.
  induction l as [|x rest IH]; [reflexivity|].
  unfold sort_desc in *. cbn [fold_right].
  rewrite insert_desc_perm. now constructor.
Qed.

Lemma insert_desc_sorted (x : string * nat) (l : list (string * nat)) :
  StronglySorted (fun a b => snd b <= snd a) l ->
  StronglySorted (fun a b => snd b <= snd a) (insert_desc x l).
Proof.
  induction 1 as [|y rest Hrest IH Hy]; cbn [insert_desc].
  - repeat constructor.
  - destruct (Nat.leb_spec (snd y) (snd x)) as [Hle | Hgt].
    + constructor; [now constructor|].
      constructor; [exact Hle|].
      eapply Forall_impl; [|exact Hy]. cbn. intros z Hz. lia.
    + constructor; [exact IH|].
      eapply Permutation_Forall; [symmetry; apply insert_desc_perm|].
      constructor; [lia | exact Hy].
Qed.

Lemma sort_desc_sorted (l : list (string * nat)) :
  StronglySorted (fun a b => snd b <= snd a) (sort_desc l).
Proof.
  induction l as [|x rest IH]; [constructor|].
  unfold sort_desc in *. cbn [fold_right]. now apply insert_desc_sorted.
Qed.

Lemma insert_desc_stable (n : nat) (x : string * nat) (l : list (string * nat)) :
  filter (fun e => (snd e =? n)%nat) (insert_desc x l)
  = filter (fun e => (snd e =? n)%nat) (x :: l).
Proof.
  induction l as [|y rest IH]; [reflexivity|].
  cbn [insert_desc]. destruct (Nat.leb_spec (snd y) (snd x)) as [Hle | Hgt];
    [reflexivity|].
  cbn [filter] in *. rewrite IH.
  destruct (Nat.eqb_spec (snd x) n) as [Ex | Ex]; [|reflexivity].
  destruct (Nat.eqb_spec (snd y) n) as [Ey | Ey]; [lia | reflexivity].
Qed.

Lemma sort_desc_stable (n : nat) (l : list (string * nat)) :
  filter (fun e => (snd e =? n)%nat) (sort_desc l)
  = filter (fun e => (snd e =? n)%nat) l.
Proof.
  induction l as [|x rest IH]; [reflexivity|].
  unfold sort_desc in *. cbn [fold_right].
  rewrite insert_desc_stable. cbn [filter]. now rewrite IH.
Qed.

Lemma sorted_app_le (a b : list (string * nat)) :
  StronglySorted (fun x y => snd y <= snd x) (a ++ b) ->
  StronglySorted (fun x y => snd y <= snd x) a
  /\ forall x y, In x a -> In y b -> snd y <= snd x.
Proof.
  induction a as [|z a IH]; cbn [app]; intros H.
  - split; [constructor | intros x y []].
  - inversion H as [|? ? Hs Hz]; subst. destruct (IH Hs) as [Ha Hab].
    split.
    + constructor; [exact Ha|]. apply Forall_app in Hz. exact (proj1 Hz).
    + intros x y [<- | Hx] Hy; [|now apply Hab].
      rewrite Forall_forall in Hz. apply Hz. apply in_or_app. now right.
Qed.

Lemma ends_here (t : string) : exists lead : string, t = lead ++ t.
Proof. now exists "". Qed.

Lemma ends_cons (a x t : string) :
  (exists lead : string, x = lead ++ t) ->
  exists lead : string, a ++ x = lead ++ t.
Proof.
  intros [lead ->]. exists (a ++ lead). symmetry. apply append_assoc.
Qed.

(** The statistics of an entry end with the block of the file types and the
    rule. *)
Lemma entry_statistics_ends (r : AnalysisResult) :
  exists lead : string,
    entry_statistics r
    = lead ++ types_block (firstn 5 (sort_desc (fileTypes (analysis r))))
           ++ "---" ++ nl ++ nl.
Proof.
  unfold entry_statistics, types_block. cbv zeta.
  repeat first [ apply ends_here | apply ends_cons ].
Qed.

(** X17: an entry of the report without error ends with the block of its
    top file types and the rule, and the types listed there are the first
    five of the histogram by falling count: there are five of them, or all
    when the histogram has fewer; with the types left out they are the
    histogram rearranged; they stand in falling order of count; every type
    left out has a count no larger than each one listed; and types of equal
    count keep the order in which the prober first met them. *)
Theorem top_types_by_count (index : nat) (r : AnalysisResult) :
  error_shown (analysis r) = None ->
  exists (lead : string) (top rest : list (string * nat)),
    report_entry index r
    = entry_heading index r ++ lead ++ types_block top ++ "---" ++ nl ++ nl
    /\ List.length top = Nat.min 5 (List.length (fileTypes (analysis r)))
    /\ Permutation (top ++ rest) (fileTypes (analysis r))
    /\ StronglySorted (fun a b => snd b <= snd a) top
    /\ (forall shown hidden,
           In shown top -> In hidden rest -> snd hidden <= snd shown)
    /\ (forall n,
           filter (fun e => (snd e =? n)%nat) (top ++ rest)%list
           = filter (fun e => (snd e =? n)%nat) (fileTypes (analysis r))).
Proof.
  intros Herr.
  destruct (entry_statistics_ends r) as [lead Hlead].
  pose proof (sort_desc_sorted (fileTypes (analysis r))) as Hs.
  rewrite <- (firstn_skipn 5 (sort_desc (fileTypes (analysis r)))) in Hs.
  destruct (sorted_app_le _ _ Hs) as [Hfirst Hle].
  exists lead, (firstn 5 (sort_desc (fileTypes (analysis r)))),
    (skipn 5 (sort_desc (fileTypes (analysis r)))).
  split; [|split; [|split; [|split; [|split]]]].
  - unfold report_entry. now rewrite Herr, Hlead.
  - rewrite length_firstn.
    now rewrite (Permutation_length (sort_desc_perm (fileTypes (analysis r)))).
  - rewrite firstn_skipn. apply sort_desc_perm.
  - exact Hfirst.
  - exact Hle.
  - intros n. rewrite firstn_skipn. apply sort_desc_stable.
Qed.

(** X18: the directory of a clone is named by the owner, a hyphen and the
    name, so a hyphen can be read either way: the repository [c] of the owner
    [a-b] and the repository [b-c] of the owner [a] are cloned to the same
    path. *)
Theorem clone_path_hyphen (a b c u1 u2 d1 d2 l1 l2 : string) (s1 s2 : nat) :
  clone_path {| name := c; owner := a ++ "-" ++ b; url := u1;
                description := d1; stars := s1; language := l1 |}
  = clone_path {| name := b ++ "-" ++ c; owner := a; url := u2;
                  description := d2; stars := s2; language := l2 |}.
Proof.
  unfold clone_path. cbn [owner name]. now rewrite !append_assoc.
Qed.

(** X19: in every result that a run appends, under the conditions of C1, no
    reported path goes through a directory named [node_modules] or one whose
    name begins with [.git]: none of the segments before the last is such a
    name. *)
Theorem reported_paths_skip (query : string) (filePatterns : list string)
    (limit : jsnum) (s : state) :
  exists appended,
    results (snd (analyzeRepositories query filePatterns limit s))
    = (results s ++ appended)%list
    /\ Forall
         (fun res =>
            Path.clean tempDir ->
            Path.plain (owner (repo res) ++ "-" ++ name (repo res)) = true ->
            forall root,
              git_clone (url (repo res)) (localPath res) = inr root ->
              wf_node root = true ->
              forall p,
                In p (files res) ->
                Forall (fun d => d <> "node_modules"
                                 /\ JsString.startsWith d ".git" = false)
                       (removelast (JsString.split JsString.slash p)))
         appended.
Proof.
  destruct (run_appends query filePatterns limit s) as (appended & Happ & Hall).
  exists appended. split; [exact Happ|].
  apply Forall_forall. intros res Hres.
  destruct (Hall _ Hres) as (r & Hin & _).
  destruct (contribution_inv _ _ _ Hin)
    as (root & allFiles & matching & H1 & H2 & H3 & ->).
  cbn [files repo localPath].
  intros Htemp Hplain root' Hclone Hwf p Hp.
  rewrite H1 in Hclone. injection Hclone as <-.
  destruct (join_clean _ _ Htemp Hplain) as [Hpath Hclean].
  unfold clone_path in *. rewrite Hpath in *.
  apply in_map_iff in Hp. destruct Hp as (f & <- & Hf).
  destruct (walked_below _ _ _ _ Hclean Hwf H2 Hf)
    as (segs & Hat & -> & Hsegs & Hdirs).
  rewrite relative_below, split_join;
    [exact Hdirs | eapply file_at_nonempty; exact Hat | now apply plain_no_slash].
Qed.

End Analyzer.

(* ================================================================== *)
(** * Part III. The properties on the sample world *)
(* ================================================================== *)

(** C2 as it is worded fails: [*.mdc] matches a file named [rules.md] that
    lies at the root of a clone whose repository is named [awesome-mdc],
    through the fragment of its last three segments, whatever the host's
    engine. *)
Example glob_matches_a_file_named_rules_md :
  exists file : string,
    Path.basename file = "rules.md"
    /\ forall host : RegExp.engine, matches host file ["*.mdc"] = inr true.
Proof.
  exists "/tmp/github-analysis-1752500000000/bob-awesome-mdc/rules.md".
  split; [reflexivity|]. intros host. reflexivity.
Qed.

Module Witness.
Import Sample.

Local Abbreviation empty_state :=
  (Build_state (@nil (AnalysisResult string)) (@nil event)).

(** [filePatterns_exact] on a command line with a year among the patterns. *)
Lemma filePatterns_exact_witness :
  Cli.main_args ["notes"; "2024"; "*.md"; "--limit"; "5"; "todo"]
  = Cli.Run "notes" ["*.md"; "todo"] (Num 5)
  /\ ["*.md"; "todo"]
     = filter (fun a => if excluded_dec a then false else true)
              ["2024"; "*.md"; "--limit"; "5"; "todo"].
Proof.
  split; [reflexivity|].
  apply (filePatterns_exact ["notes"; "2024"; "*.md"; "--limit"; "5"; "todo"]
           "notes" ["*.md"; "todo"] (Num 5) eq_refl).
Defined.

Lemma tempDir_clean : Path.clean tempDir.
Proof.
  exists ["tmp"; "github-analysis-1752500000000"].
  repeat split; [discriminate | repeat constructor].
Defined.

(** [results_relative] on the run that analyzes the sample repositories:
    the one result has its matching files among its files, all relative to
    the clone. *)
Lemma results_relative_witness :
  incl ["zsh/aliases.zsh"; "zsh/prompt.ZSH"; "install.bash"]
       ["README.md"; "zsh/aliases.zsh"; "zsh/prompt.ZSH"; "install.bash";
        "package.json"]
  /\ Forall (relative_to dotfiles_tree dotfiles_clone)
            ["README.md"; "zsh/aliases.zsh"; "zsh/prompt.ZSH"; "install.bash";
             "package.json"]
  /\ Forall (relative_to dotfiles_tree dotfiles_clone)
            ["zsh/aliases.zsh"; "zsh/prompt.ZSH"; "install.bash"].
Proof.
  destruct (results_relative host string JSON_parse gh_search git_clone tempDir
              "dotfiles" ["*.zsh"; "*.bash"] (Num 10) empty_state)
    as (appended & Happ & Hall).
  vm_compute in Happ. subst appended.
  inversion Hall as [|res rest [Hincl [_ Hrel]] _]; subst.
  split; [exact Hincl|].
  apply (Hrel tempDir_clean); vm_compute; reflexivity.
Defined.

(** [glob_pattern_matches] on a pattern with a star. *)
Lemma glob_pattern_matches_witness :
  JsString.includes "*.mdc" "*" = true
  /\ matches host "/tmp/clone/.cursor/rules/style.mdc" ["*.mdc"]
     = match RegExp.compile host (JsString.replace_stars "*.mdc") with
       | inl detail => inl (SyntaxError (JsString.replace_stars "*.mdc") detail)
       | inr regex =>
           inr (RegExp.test regex (Path.basename "/tmp/clone/.cursor/rules/style.mdc")
                || RegExp.test regex (relativePath "/tmp/clone/.cursor/rules/style.mdc"))
       end
  /\ relativePath "/tmp/clone/.cursor/rules/style.mdc" = ".cursor/rules/style.mdc"
  /\ matches host "/tmp/clone/docs.MDC/v2/rules.md" ["*.mdc"] = inr true
  /\ matches host "/tmp/clone/docs/v2/rules.md" ["*.mdc"] = inr false.
Proof.
  split; [reflexivity|]. split; [|split; [|split]].
  - apply (proj1 (glob_pattern_matches host)
             "/tmp/clone/.cursor/rules/style.mdc" "*.mdc" eq_refl).
  - apply (proj1 (proj2 (proj2 (proj2 (proj2 (glob_pattern_matches host)))))
             [""; "tmp"; "clone"; ".cursor"; "rules"; "style.mdc"]).
    + discriminate.
    + repeat constructor.
  - apply (proj2 (proj1 (proj1 (proj2 (proj2 (proj2 (proj2 (proj2 (proj2
             (proj2 (proj2 (proj2 (proj2 (glob_pattern_matches host)))))))))))
             "/tmp/clone/docs.MDC/v2/rules.md" eq_refl))).
    exists "docs", "."%char, "M"%char, "D"%char, "C"%char, "/v2/rules.md".
    repeat split; auto.
  - apply (proj2 (proj2 (proj1 (proj2 (proj2 (proj2 (proj2 (proj2 (proj2
             (proj2 (proj2 (proj2 (proj2 (glob_pattern_matches host)))))))))))
             "/tmp/clone/docs/v2/rules.md" eq_refl))).
    intros H. apply mdc_search in H. discriminate H.
Defined.

(** [walker_skips] on the sample clone: a returned path goes through no
    skipped directory. *)
Lemma walker_skips_witness :
  getAllFiles dotfiles_clone dotfiles_tree []
  = inr (map (fun p => dotfiles_clone ++ "/" ++ p)
             ["README.md"; "zsh/aliases.zsh"; "zsh/prompt.ZSH"; "install.bash";
              "package.json"])
  /\ exists segs,
       file_at dotfiles_tree segs
       /\ dotfiles_clone ++ "/zsh/aliases.zsh" = join_all dotfiles_clone segs
       /\ Forall (fun d => d <> "node_modules"
                           /\ JsString.startsWith d ".git" = false)
                 (removelast segs).
Proof.
  split; [reflexivity|].
  apply (proj1 (walker_skips dotfiles_clone dotfiles_tree) _ _ eq_refl).
  vm_compute. tauto.
Defined.

(** [repository_failures_do_not_abort] on the sample run: the clone of the
    first repository fails, the walk of the second one fails, and the run
    returns the result of the third. *)
Lemma repository_failures_do_not_abort_witness :
  contribution host JSON_parse git_clone tempDir ["*.zsh"] gone = []
  /\ contribution host JSON_parse git_clone tempDir ["*.zsh"] rules = []
  /\ contribution host JSON_parse git_clone tempDir ["*("] dotfiles = []
  /\ (exists res, contribution host JSON_parse git_clone tempDir ["*.zsh"] dotfiles = [res]
                  /\ repo res = dotfiles)
  /\ fst (analyzeRepositories host JSON_parse gh_search git_clone tempDir
            "dotfiles" ["*.zsh"] (Num 10) empty_state)
     = inr (results empty_state
            ++ flat_map (contribution host JSON_parse git_clone tempDir ["*.zsh"])
                        [gone; rules; dotfiles])%list.
Proof.
  pose proof (repository_failures_do_not_abort host string JSON_parse gh_search
                git_clone tempDir "dotfiles" ["*.zsh"] (Num 10) empty_state)
    as (_ & Hrun & Hclone & Hwalk & _ & Hok).
  pose proof (repository_failures_do_not_abort host string JSON_parse gh_search
                git_clone tempDir "dotfiles" ["*("] (Num 10) empty_state)
    as (_ & _ & _ & _ & Hmatch & _).
  split; [apply (Hclone gone (ExecError "git clone" "repository not found")); vm_compute; reflexivity|].
  split; [apply (Hwalk rules rules_tree (SystemError ENOENT "stat"
                "/tmp/github-analysis-1752500000000/bob-rules/dangling")); vm_compute; reflexivity|].
  split; [apply (Hmatch dotfiles dotfiles_tree
                   (below dotfiles_clone ["README.md"; "zsh/aliases.zsh"; "zsh/prompt.ZSH"; "install.bash"; "package.json"])
                   (SyntaxError ".*(" "Unterminated group")); vm_compute; reflexivity|].
  split; [apply (Hok dotfiles dotfiles_tree
                   (below dotfiles_clone ["README.md"; "zsh/aliases.zsh"; "zsh/prompt.ZSH"; "install.bash"; "package.json"])
                   (below dotfiles_clone ["zsh/aliases.zsh"; "zsh/prompt.ZSH"])); vm_compute; reflexivity|].
  assert (Hs : gh_search "dotfiles" (Num 10) = inr [gone; rules; dotfiles])
    by (vm_compute; reflexivity).
  exact (proj1 (Hrun _ Hs)).
Defined.

(** [walk_error_caught] on the sample clone with a dangling entry. *)
Lemma walk_error_caught_witness :
  process host JSON_parse git_clone tempDir ["*.mdc"] rules empty_state
  = (inr tt,
     {| results := [];
        console :=
          [LogCloning rules;
           ErrFailedToAnalyze rules
             (SystemError ENOENT "stat"
                "/tmp/github-analysis-1752500000000/bob-rules/dangling")] |})
  /\ In (ErrFailedToAnalyze rules
           (SystemError ENOENT "stat"
              "/tmp/github-analysis-1752500000000/bob-rules/dangling"))
        (console (snd (analyzeRepositories host JSON_parse gh_search git_clone
                         tempDir "dotfiles" ["*.mdc"] (Num 10) empty_state))).
Proof.
  pose proof (walk_error_caught host string JSON_parse gh_search git_clone tempDir
                ["*.mdc"]) as [Hturn Hrun].
  assert (Hs : gh_search "dotfiles" (Num 10) = inr [gone; rules; dotfiles])
    by (vm_compute; reflexivity).
  assert (Hc : git_clone (url rules) (clone_path tempDir rules) = inr rules_tree)
    by (vm_compute; reflexivity).
  assert (Hw : getAllFiles (clone_path tempDir rules) rules_tree []
               = inl (SystemError ENOENT "stat"
                        "/tmp/github-analysis-1752500000000/bob-rules/dangling"))
    by (vm_compute; reflexivity).
  split.
  - exact (Hturn rules rules_tree _ empty_state Hc Hw).
  - assert (Hin : In rules [gone; rules; dotfiles]) by (right; now left).
    exact (proj1 (proj2 (Hrun "dotfiles" (Num 10) _ rules rules_tree _
                           empty_state Hs Hin Hc Hw))).
Defined.

(** [error_entry_rendering] on an entry whose probe failed. *)
Lemma error_entry_rendering_witness :
  report_entry 0
    {| repo := rules;
       localPath := "/tmp/github-analysis-1752500000000/bob-rules";
       files := ["rules.mdc"];
       matchingFiles := ["rules.mdc"];
       analysis :=
         failed (initial_analysis string)
                (SystemError ENOENT "scandir"
                   "/tmp/github-analysis-1752500000000/bob-rules") |}
  = entry_heading 0
      {| repo := rules;
         localPath := "/tmp/github-analysis-1752500000000/bob-rules";
         files := ["rules.mdc"];
         matchingFiles := ["rules.mdc"];
         analysis :=
           failed (initial_analysis string)
                  (SystemError ENOENT "scandir"
                     "/tmp/github-analysis-1752500000000/bob-rules") |}
    ++ "**Error:** "
    ++ "ENOENT: no such file or directory, scandir '/tmp/github-analysis-1752500000000/bob-rules'"
    ++ nl ++ nl
  /\ entry_heading 0
       {| repo := rules;
          localPath := "/tmp/github-analysis-1752500000000/bob-rules";
          files := ["rules.mdc"];
          matchingFiles := ["rules.mdc"];
          analysis :=
            failed (initial_analysis string)
                   (SystemError ENOENT "scandir"
                      "/tmp/github-analysis-1752500000000/bob-rules") |}
     = "## 1. bob/rules" ++ nl ++ nl
       ++ "**Description:** " ++ nl
       ++ "**Stars:** 0 | **Language:** Unknown" ++ nl
       ++ "**URL:** https://github.com/bob/rules" ++ nl ++ nl.
Proof.
  split; [|reflexivity].
  apply (proj1 (error_entry_rendering host string JSON_parse) 0 _
           "ENOENT: no such file or directory, scandir '/tmp/github-analysis-1752500000000/bob-rules'");
    reflexivity.
Defined.


(** ** The further properties on the sample world *)

(** [walker_complete] on the sample clone: the file two levels down is among
    the paths returned. *)
Lemma walker_complete_witness :
  getAllFiles dotfiles_clone dotfiles_tree []
  = inr (below dotfiles_clone
           ["README.md"; "zsh/aliases.zsh"; "zsh/prompt.ZSH"; "install.bash";
            "package.json"])
  /\ In (join_all dotfiles_clone ["zsh"; "prompt.ZSH"])
        (below dotfiles_clone
           ["README.md"; "zsh/aliases.zsh"; "zsh/prompt.ZSH"; "install.bash";
            "package.json"]).
Proof.
  assert (Hwalk : getAllFiles dotfiles_clone dotfiles_tree []
                  = inr (below dotfiles_clone
                           ["README.md"; "zsh/aliases.zsh"; "zsh/prompt.ZSH";
                            "install.bash"; "package.json"]))
    by (vm_compute; reflexivity).
  split; [exact Hwalk|].
  apply (walker_complete dotfiles_clone dotfiles_tree _ ["zsh"; "prompt.ZSH"] Hwalk).
  - apply (@file_below _ "zsh"
             (inr [ ("aliases.zsh", File 300 None); ("prompt.ZSH", File 80 None) ])
             ["prompt.ZSH"]).
    + do 4 right. left. reflexivity.
    + apply (@file_here _ "prompt.ZSH" 80 None). right. left. reflexivity.
  - repeat constructor.
Defined.


(** [literal_pattern_in_segment]: the name of a directory among the last
    three segments is enough. *)
Lemma literal_pattern_in_segment_witness :
  matches host (JsString.join "/" [""; "tmp"; "clone"; ".cursor"; "rules"; "style.mdc"])
    ["Rule"; "*("] = inr true.
Proof.
  apply (literal_pattern_in_segment host
           [""; "tmp"; "clone"; ".cursor"; "rules"; "style.mdc"] "rules" "Rule" ["*("]).
  - discriminate.
  - repeat constructor.
  - right. left. reflexivity.
  - reflexivity.
  - exists "", "s". reflexivity.
Defined.

(** [patterns_first_match_decides]: a pattern that matches hides a malformed
    one after it. *)
Lemma patterns_first_match_decides_witness :
  matches host "/tmp/clone/zsh/aliases.zsh" (["*.zsh"] ++ ["*("])%list = inr true
  /\ matches host "/tmp/clone/zsh/aliases.zsh" (["*.md"] ++ ["*("])%list
     = matches host "/tmp/clone/zsh/aliases.zsh" ["*("].
Proof.
  split.
  - apply (proj1 (patterns_first_match_decides host "/tmp/clone/zsh/aliases.zsh"
                    ["*.zsh"] ["*("])).
    vm_compute; reflexivity.
  - apply (proj1 (proj2 (patterns_first_match_decides host
                           "/tmp/clone/zsh/aliases.zsh" ["*.md"] ["*("]))).
    vm_compute; reflexivity.
Defined.

(** [findMatchingFiles_returns] on patterns of letters, dots and stars. *)
Lemma findMatchingFiles_returns_witness :
  exists kept,
    findMatchingFiles host
      (below dotfiles_clone ["README.md"; "zsh/aliases.zsh"; "install.bash"])
      ["*.zsh"; "read+me"; ".b*sh"] = inr kept.
Proof.
  apply (findMatchingFiles_returns host
           (below dotfiles_clone ["README.md"; "zsh/aliases.zsh"; "install.bash"])
           ["*.zsh"; "read+me"; ".b*sh"]).
  repeat constructor.
Defined.

(** [walker_returns_iff_walkable] on the two sample clones: the walk of the
    first returns, the walk of the second, with its dangling entry, does
    not. *)
Lemma walker_returns_iff_walkable_witness :
  (exists fs, getAllFiles dotfiles_clone dotfiles_tree [] = inr fs)
  /\ ~ (exists fs, getAllFiles "/tmp/clone" rules_tree [] = inr fs).
Proof.
  split.
  - apply (proj2 (walker_returns_iff_walkable dotfiles_clone dotfiles_tree)).
    reflexivity.
  - intros H.
    apply (proj1 (walker_returns_iff_walkable "/tmp/clone" rules_tree)) in H.
    discriminate H.
Defined.

(** [top_types_by_count] on an entry with six file types. *)
Lemma top_types_by_count_witness :
  exists (lead : string) (top rest : list (string * nat)),
    report_entry 0
      {| repo := dotfiles; localPath := dotfiles_clone;
         files := []; matchingFiles := [];
         analysis :=
           {| totalFiles := 10;
              fileTypes := [(".md", 1); (".zsh", 2); (".bash", 1); (".json", 1);
                            ("no-extension", 3); (".ts", 2)];
              structure := []; readme := None; packageJson := None;
              packageData := @None string; specialFiles := [];
              error_field := None |} |}
    = entry_heading 0
        {| repo := dotfiles; localPath := dotfiles_clone;
           files := []; matchingFiles := [];
           analysis :=
             {| totalFiles := 10;
                fileTypes := [(".md", 1); (".zsh", 2); (".bash", 1); (".json", 1);
                              ("no-extension", 3); (".ts", 2)];
                structure := []; readme := None; packageJson := None;
                packageData := @None string; specialFiles := [];
                error_field := None |} |}
      ++ lead ++ types_block top ++ "---" ++ nl ++ nl
    /\ List.length top = Nat.min 5 6
    /\ Permutation (top ++ rest)
         [(".md", 1); (".zsh", 2); (".bash", 1); (".json", 1);
          ("no-extension", 3); (".ts", 2)]
    /\ StronglySorted (fun a b => snd b <= snd a) top
    /\ (forall shown hidden,
           In shown top -> In hidden rest -> snd hidden <= snd shown)
    /\ (forall n,
           filter (fun e : string * nat => (snd e =? n)%nat) (top ++ rest)%list
           = filter (fun e : string * nat => (snd e =? n)%nat)
               [(".md", 1); (".zsh", 2); (".bash", 1); (".json", 1);
                ("no-extension", 3); (".ts", 2)]).
Proof.
  apply (top_types_by_count string 0
           {| repo := dotfiles; localPath := dotfiles_clone;
              files := []; matchingFiles := [];
              analysis :=
                {| totalFiles := 10;
                   fileTypes := [(".md", 1); (".zsh", 2); (".bash", 1);
                                 (".json", 1); ("no-extension", 3); (".ts", 2)];
                   structure := []; readme := None; packageJson := None;
                   packageData := @None string; specialFiles := [];
                   error_field := None |} |}).
  reflexivity.
Defined.

(** [fragment_decides] on a file of a clone: a literal pattern and a glob. *)
Lemma fragment_decides_witness :
  matches host (JsString.join "/" [""; "tmp"; "clone"; "zsh"; "aliases.zsh"])
    ["Clone/ZSH"]
  = inr (JsString.includes
           (JsString.toLowerCase
              (relativePath
                 (JsString.join "/" [""; "tmp"; "clone"; "zsh"; "aliases.zsh"])))
           (JsString.toLowerCase "Clone/ZSH"))
  /\ matches host (JsString.join "/" [""; "tmp"; "clone"; "zsh"; "aliases.zsh"])
       ["*.zsh"]
     = inr (RegExp.search
              [(RegExp.AnyChar, RegExp.ZeroOrMore); (RegExp.AnyChar, RegExp.One);
               (RegExp.Lit "z", RegExp.One); (RegExp.Lit "s", RegExp.One);
               (RegExp.Lit "h", RegExp.One)]
              (relativePath
                 (JsString.join "/" [""; "tmp"; "clone"; "zsh"; "aliases.zsh"]))).
Proof.
  assert (Hne : [""; "tmp"; "clone"; "zsh"; "aliases.zsh"] <> []) by discriminate.
  assert (Hsegs : Forall (fun n => JsString.includes n "/" = false)
                         [""; "tmp"; "clone"; "zsh"; "aliases.zsh"])
    by (repeat constructor).
  assert (Hlast : last [""; "tmp"; "clone"; "zsh"; "aliases.zsh"] "" <> "")
    by discriminate.
  split.
  - exact (proj1 (fragment_decides host _ "Clone/ZSH" Hne Hsegs Hlast) eq_refl).
  - exact (proj2 (fragment_decides host _ "*.zsh" Hne Hsegs Hlast) _ eq_refl eq_refl).
Defined.

(** [fileTypes_count_files] on the sample clone: five files, four types, two
    of the files of the type [.zsh]. *)
Lemma fileTypes_count_files_witness :
  list_sum (map snd (fileTypes (fst (analyzeRepository host JSON_parse
                                       dotfiles_clone dotfiles_tree dotfiles
                                       ["*.zsh"]))))
  = totalFiles (fst (analyzeRepository host JSON_parse dotfiles_clone
                       dotfiles_tree dotfiles ["*.zsh"]))
  /\ count_for ".zsh" (fileTypes (fst (analyzeRepository host JSON_parse
                                         dotfiles_clone dotfiles_tree dotfiles
                                         ["*.zsh"])))
     = List.length
         (filter (fun f => String.eqb (type_key f) ".zsh")
            (below dotfiles_clone
               ["README.md"; "zsh/aliases.zsh"; "zsh/prompt.ZSH"; "install.bash";
                "package.json"])).
Proof.
  assert (Hwalk : getAllFiles dotfiles_clone dotfiles_tree []
                  = inr (below dotfiles_clone
                           ["README.md"; "zsh/aliases.zsh"; "zsh/prompt.ZSH";
                            "install.bash"; "package.json"]))
    by (vm_compute; reflexivity).
  pose proof (fileTypes_count_files host string JSON_parse dotfiles_clone
                dotfiles_tree dotfiles ["*.zsh"] _ Hwalk) as (Hsum & _ & Hcount).
  split; [exact Hsum | exact (Hcount ".zsh")].
Defined.

(** [specialFiles_are_matchingFiles] on the sample run. *)
Lemma specialFiles_are_matchingFiles_witness :
  map (fun res => map sf_path (specialFiles (analysis res)))
      (results (snd (analyzeRepositories host JSON_parse gh_search git_clone
                       tempDir "dotfiles" ["*.zsh"; "readme"] (Num 10)
                       empty_state)))
  = map (fun res => matchingFiles res)
        (results (snd (analyzeRepositories host JSON_parse gh_search git_clone
                         tempDir "dotfiles" ["*.zsh"; "readme"] (Num 10)
                         empty_state))).
Proof.
  destruct (specialFiles_are_matchingFiles host string JSON_parse gh_search
              git_clone tempDir "dotfiles" ["*.zsh"; "readme"] (Num 10)
              empty_state)
    as (appended & Happ & Hall).
  rewrite Happ. vm_compute in Happ. subst appended.
  inversion Hall as [|res rest H _]; subst.
  exact (f_equal (fun x => [x]) (H eq_refl)).
Defined.

(** [probe_records_no_error] on the sample run. *)
Lemma probe_records_no_error_witness :
  map (fun res => error_field (analysis res))
      (results (snd (analyzeRepositories host JSON_parse gh_search git_clone
                       tempDir "dotfiles" ["*.zsh"; "readme"] (Num 10)
                       empty_state)))
  = [None].
Proof.
  destruct (probe_records_no_error host string JSON_parse gh_search
              git_clone tempDir "dotfiles" ["*.zsh"; "readme"] (Num 10)
              empty_state)
    as (appended & Happ & Hall).
  rewrite Happ. vm_compute in Happ. subst appended.
  inversion Hall as [|res rest H _]; subst.
  refine (f_equal (fun x => [x]) (H tempDir_clean _ dotfiles_tree _ _ _));
    vm_compute; reflexivity.
Defined.

(** [readFileContent_index] after the sample run, which leaves one result. *)
Lemma readFileContent_index_witness :
  readFileContent git_clone
    (snd (analyzeRepositories host JSON_parse gh_search git_clone tempDir
            "dotfiles" ["*.zsh"] (Num 10) empty_state))
    1 "README.md" = inl InvalidRepositoryIndex
  /\ readFileContent git_clone
       (snd (analyzeRepositories host JSON_parse gh_search git_clone tempDir
               "dotfiles" ["*.zsh"] (Num 10) empty_state))
       (-1) "README.md" = inl UndefinedResult.
Proof.
  split.
  - apply (proj2 (proj1 (readFileContent_index string git_clone
                           (snd (analyzeRepositories host JSON_parse gh_search
                                   git_clone tempDir "dotfiles" ["*.zsh"]
                                   (Num 10) empty_state))
                           1 "README.md"))).
    vm_compute. discriminate.
  - apply (proj1 (proj2 (readFileContent_index string git_clone
                           (snd (analyzeRepositories host JSON_parse gh_search
                                   git_clone tempDir "dotfiles" ["*.zsh"]
                                   (Num 10) empty_state))
                           (-1) "README.md"))).
    reflexivity.
Defined.

(** [readFileContent_reads_listed] on the sample run: a listed file of the
    one result is found and read. *)
Lemma readFileContent_reads_listed_witness :
  exists size content,
    resolve dotfiles_tree (JsString.split JsString.slash "zsh/aliases.zsh")
    = inr (File size content)
    /\ readFileContent git_clone
         (snd (analyzeRepositories host JSON_parse gh_search git_clone tempDir
                 "dotfiles" ["*.zsh"] (Num 10) empty_state))
         (Z.of_nat (List.length (results empty_state) + 0)) "zsh/aliases.zsh"
       = match content with
         | Some text => inr text
         | None =>
             inl (ReadError (SystemError EACCES "open"
                               (dotfiles_clone ++ "/" ++ "zsh/aliases.zsh")))
         end.
Proof.
  destruct (readFileContent_reads_listed host string JSON_parse gh_search
              git_clone tempDir "dotfiles" ["*.zsh"] (Num 10) empty_state)
    as (appended & Happ & Hread).
  vm_compute in Happ. subst appended.
  refine (Hread 0 _ "zsh/aliases.zsh" dotfiles_tree eq_refl _ tempDir_clean
            _ _ _ _).
  - right. left. reflexivity.
  - vm_compute; reflexivity.
  - vm_compute; reflexivity.
  - vm_compute; reflexivity.
  - vm_compute; reflexivity.
Defined.

(** [main_usage_or_run]: [--help] anywhere shows the usage text. *)
Lemma main_usage_or_run_witness :
  Cli.main_args ["dotfiles"; "--limit"; "--help"] = Cli.Usage.
Proof.
  apply (proj2 (proj1 (main_usage_or_run ["dotfiles"; "--limit"; "--help"]))).
  right. right. right. left. reflexivity.
Defined.

(** [limit_reads_decimal] at 15. *)
Lemma limit_reads_decimal_witness :
  Cli.limit_of (["dotfiles"; "*.zsh"] ++ "--limit" :: JsString.of_nat 15 :: ["*.bash"])%list
  = Num (Z.of_nat 15).
Proof.
  assert (Hn : (Z.of_nat 15 <= 2 ^ 53)%Z) by (vm_compute; discriminate).
  apply (proj2 (proj1 (limit_reads_decimal 15) Hn) ["dotfiles"; "*.zsh"] ["*.bash"]).
  intros [H | [H | []]]; discriminate H.
Defined.

(** [limit_reads_digit_prefix]: [15px] sets the limit to 15 and is a file
    pattern too. *)
Lemma limit_reads_digit_prefix_witness :
  Cli.limit_of
    (["dotfiles"] ++ "--limit" :: (JsString.of_nat 15 ++ String "p" "x")%string :: [])%list
  = Num (Z.of_nat 15)
  /\ In (JsString.of_nat 15 ++ String "p" "x")
        (Cli.filePatterns_of
           (["dotfiles"] ++ "--limit" :: (JsString.of_nat 15 ++ String "p" "x")%string :: [])%list).
Proof.
  apply (limit_reads_digit_prefix 15 "p" "x" ["dotfiles"] []).
  - vm_compute; discriminate.
  - reflexivity.
  - discriminate.
  - intros [H | []]; discriminate H.
Defined.

(** [reported_paths_skip] on the sample run. *)
Lemma reported_paths_skip_witness :
  Forall (fun d => d <> "node_modules" /\ JsString.startsWith d ".git" = false)
         (removelast (JsString.split JsString.slash "zsh/aliases.zsh")).
Proof.
  destruct (reported_paths_skip host string JSON_parse gh_search
              git_clone tempDir "dotfiles" ["*.zsh"] (Num 10) empty_state)
    as (appended & Happ & Hall).
  vm_compute in Happ. subst appended.
  inversion Hall as [|res rest H _]; subst.
  apply (H tempDir_clean) with (root := dotfiles_tree).
  - vm_compute; reflexivity.
  - vm_compute; reflexivity.
  - vm_compute; reflexivity.
  - right. left. reflexivity.
Defined.

End Witness.
